(** * Cerber CI: the workflow parser of [@cerber-ci/core]

    A shallow embedding of [packages/core/src/ast/WorkflowParser.ts] and the
    properties of its two entry points, [WorkflowParser.parse] and
    [parseWorkflow].

    The parser receives whatever [yaml.load] hands back, probes it with
    [typeof], [Array.isArray] and truthiness tests, and appends its findings
    to a mutable [errors] array that is passed from function to function.
    The embedding keeps that shape: decoded documents are values of an
    untyped tree [JsVal], every property read may raise the engine's
    [TypeError], and the parser's functions live in a monad that threads the
    [errors] array and lets it survive an exception, as the array does.

    The decoder is js-yaml's [load] with its default schema, and the engine
    is one of ES2023 or later (Node 20 and up), where sequences and typed
    arrays inherit a method [with]. *)

From Stdlib Require Import List String Ascii Bool Arith NArith Lia.
From Stdlib Require Import Floats.SpecFloat DecimalString Strings.Byte.
Import ListNotations.
Open Scope string_scope.
Open Scope list_scope.

Set Warnings "-register-all".

(** ** Decoded documents *)

(** What the decoder returns: [undefined] for an empty document, [null],
    booleans, IEEE 754 doubles, strings, sequences, mappings whose
    properties are listed in the order [Object.keys] enumerates them, a
    [Date] for a timestamp scalar and a [Uint8Array] for a binary scalar.
    [VFunction] is no decoded value: it stands for a built-in method that a
    property read finds on a prototype, known by its name. *)
Inductive JsVal : Type :=
| VUndefined
| VNull
| VBool (b : bool)
| VNum (x : spec_float)
| VStr (s : string)
| VArr (elems : list JsVal)
| VObj (props : list (string * JsVal))
| VDate (time : spec_float)
| VBinary (bytes : list byte)
| VFunction (name : string).

(** [!!v]: the values that are not falsy. *)
Definition truthy (v : JsVal) : bool :=
  match v with
  | VUndefined | VNull => false
  | VBool b => b
  | VNum (S754_zero _) | VNum S754_nan => false
  | VNum _ => true
  | VStr s => negb (s =? "")
  | VArr _ | VObj _ | VDate _ | VBinary _ | VFunction _ => true
  end.

(** [typeof v]; [null], sequences, dates and typed arrays all answer
    ["object"]. *)
Definition typeof (v : JsVal) : string :=
  match v with
  | VUndefined => "undefined"
  | VBool _ => "boolean"
  | VNum _ => "number"
  | VStr _ => "string"
  | VFunction _ => "function"
  | VNull | VArr _ | VObj _ | VDate _ | VBinary _ => "object"
  end.

(** [Array.isArray v] *)
Definition isArray (v : JsVal) : bool :=
  match v with VArr _ => true | _ => false end.

(** ** Exceptions *)

(** The two places where the engine itself raises a [TypeError]. *)
Inductive TypeErrorSite : Type :=
| ReadOfNullish (base : JsVal) (prop : string)
| ObjectOfNullish.

(** A thrown value: an engine [TypeError], or an [Error] built with a
    message ([new Error(...)], or the decoder's [YAMLException]). *)
Inductive JsException : Type :=
| TypeError (site : TypeErrorSite)
| Error (message : string).

Inductive Completion (A : Type) : Type :=
| Normal (a : A)
| Throw (e : JsException).
Arguments Normal {A} a.
Arguments Throw {A} e.

(** ** Property access *)

Fixpoint lookup (k : string) (props : list (string * JsVal)) : JsVal :=
  match props with
  | [] => VUndefined
  | (k', v) :: rest => if k' =? k then v else lookup k rest
  end.

(** The template literal [`${i}`] of an array index. *)
Definition index_string (i : nat) : string :=
  NilZero.string_of_uint (Nat.to_uint i).

Fixpoint indexed_from {A : Type} (i : nat) (l : list A) : list (string * A) :=
  match l with
  | [] => []
  | x :: rest => (index_string i, x) :: indexed_from (S i) rest
  end.

Definition chars (s : string) : list JsVal :=
  map (fun c => VStr (String c EmptyString)) (list_ascii_of_string s).

(** The number an element of a [Uint8Array] reads as. *)
Definition byte_number (b : byte) : JsVal :=
  match Byte.to_N b with
  | N0 => VNum (S754_zero false)
  | Npos p => VNum (S754_finite false p Z0)
  end.

(** The own enumerable properties of a value, in the order of
    [Object.keys]: the properties of a mapping, the index properties of a
    sequence, a string or a typed array, none for the other values. *)
Definition own_entries (v : JsVal) : list (string * JsVal) :=
  match v with
  | VObj props => props
  | VArr elems => indexed_from 0 elems
  | VStr s => indexed_from 0 (chars s)
  | VBinary bytes => indexed_from 0 (map byte_number bytes)
  | VUndefined | VNull | VBool _ | VNum _ | VDate _ | VFunction _ => []
  end.

Definition nullish (v : JsVal) : bool :=
  match v with
  | VUndefined | VNull => true
  | _ => false
  end.

(** The value of property [k] of a value that is neither [null] nor
    [undefined], for the property names the parser reads: the fixed names
    of the workflow, job, step and event fields, and for a mapping or a
    typed array in the place of [on] its own keys.  A mapping answers with
    its own property; a typed array with its element, or with the method
    [with] it inherits; a sequence, whose index properties are never read,
    with the inherited [with]; a function with its [name]; no other value
    has or inherits a property of these names. *)
Definition prop (v : JsVal) (k : string) : JsVal :=
  match v with
  | VObj props => lookup k props
  | VArr _ => if k =? "with" then VFunction "with" else VUndefined
  | VBinary bytes =>
      if k =? "with" then VFunction "with"
      else lookup k (indexed_from 0 (map byte_number bytes))
  | VFunction name => if k =? "name" then VStr name else VUndefined
  | VUndefined | VNull | VBool _ | VNum _ | VStr _ | VDate _ => VUndefined
  end.

(** [v.k] and [v[k]]: reading from [null] or [undefined] throws. *)
Definition get (v : JsVal) (k : string) : Completion JsVal :=
  match v with
  | VUndefined | VNull => Throw (TypeError (ReadOfNullish v k))
  | _ => Normal (prop v k)
  end.

(** [Object.entries(v)] *)
Definition Object_entries (v : JsVal) : Completion (list (string * JsVal)) :=
  match v with
  | VUndefined | VNull => Throw (TypeError ObjectOfNullish)
  | _ => Normal (own_entries v)
  end.

(** [Object.keys(v)] *)
Definition Object_keys (v : JsVal) : Completion (list string) :=
  match Object_entries v with
  | Normal es => Normal (map fst es)
  | Throw e => Throw e
  end.

(** Writing property [k] of a record that keeps its keys in order: an
    existing key keeps its place, a new key goes last. *)
Fixpoint put {A : Type} (obj : list (string * A)) (k : string) (x : A)
  : list (string * A) :=
  match obj with
  | [] => [(k, x)]
  | (k', y) :: rest =>
      if k' =? k then (k', x) :: rest else (k', y) :: put rest k x
  end.

(** [obj[k] = x] for an object [x] on a record created by [{}].  The key
    ["__proto__"] reaches the setter of [Object.prototype], which changes
    the prototype and adds no own property. *)
Definition obj_set {A : Type} (obj : list (string * A)) (k : string) (x : A)
  : list (string * A) :=
  if k =? "__proto__" then obj else put obj k x.

(** ** AST and result types *)

Record SourceLocation : Type := {
  line : nat;
  column : nat;
  file : option string
}.

Record TriggerAST : Type := {
  trigger_type : string;
  events : list JsVal;
  branches : option (list JsVal);
  tags : option (list JsVal);
  paths : option (list JsVal)
}.

Record StepAST : Type := {
  step_type : string;
  step_id : JsVal;
  step_name : JsVal;
  uses : JsVal;
  run : JsVal;
  step_with : JsVal;
  step_env : JsVal;
  step_if : JsVal;
  continueOnError : JsVal
}.

Record StrategyAST : Type := {
  matrix : JsVal;
  failFast : JsVal;
  maxParallel : JsVal
}.

Record JobAST : Type := {
  job_type : string;
  job_id : string;
  job_name : JsVal;
  runsOn : JsVal;
  steps : list StepAST;
  needs : option (list JsVal);
  job_if : JsVal;
  strategy : option StrategyAST;
  job_env : JsVal;
  permissions : JsVal;
  timeout : JsVal
}.

Record WorkflowAST : Type := {
  workflow_type : string;
  workflow_name : JsVal;
  on : TriggerAST;
  jobs : list (string * JobAST);
  workflow_env : JsVal;
  defaults : JsVal;
  concurrency : JsVal;
  location : SourceLocation
}.

Inductive Severity : Type := error | warning.

Record ParseError : Type := {
  message : string;
  severity : Severity
}.

Record ParseResult : Type := {
  ast : option WorkflowAST;
  errors : list ParseError
}.

(** ** The parser's monad

    A computation reads and extends the [errors] array and either completes
    or throws; the array keeps what was pushed before a throw. *)
Definition Parser (A : Type) : Type :=
  list ParseError -> Completion A * list ParseError.

Definition ret {A : Type} (a : A) : Parser A :=
  fun errs => (Normal a, errs).

Definition bind {A B : Type} (m : Parser A) (k : A -> Parser B) : Parser B :=
  fun errs =>
    match m errs with
    | (Normal a, errs') => k a errs'
    | (Throw e, errs') => (Throw e, errs')
    end.

Declare Scope parser_scope.
Delimit Scope parser_scope with parser.
Notation "x <- m ;; k" := (bind m (fun x => k))
  (at level 61, m at next level, right associativity) : parser_scope.
Notation "m ;; k" := (bind m (fun _ => k))
  (at level 61, right associativity) : parser_scope.
Open Scope parser_scope.

(** A property read or a built-in call inside the parser. *)
Definition eval {A : Type} (c : Completion A) : Parser A :=
  fun errs => (c, errs).

(** [errors.push(e)] *)
Definition push (e : ParseError) : Parser unit :=
  fun errs => (Normal tt, errs ++ [e]).

(** A computation that leaves what the [errors] array held and adds to
    its end, also when it throws. *)
Definition appends {A : Type} (m : Parser A) : Prop :=
  forall errs, exists added, snd (m errs) = errs ++ added.

(** [if (c) { m }] *)
Definition when (c : bool) (m : Parser unit) : Parser unit :=
  if c then m else ret tt.

(** A [for] loop that updates local variables [acc] from each element. *)
Fixpoint for_each {A S : Type} (body : S -> A -> Parser S) (l : list A) (acc : S)
  : Parser S :=
  match l with
  | [] => ret acc
  | x :: rest => acc' <- body acc x ;; for_each body rest acc'
  end.

(** [Array.isArray(v) ? v : [v]] *)
Definition as_list (v : JsVal) : list JsVal :=
  match v with
  | VArr elems => elems
  | _ => [v]
  end.

(** ** [WorkflowParser]: the private construction functions *)

(** [parseStep(stepConfig, jobId, stepIndex, errors)] *)
Definition parseStep (stepConfig : JsVal) (jobId : string) (stepIndex : nat)
  : Parser StepAST :=
  uses0 <- eval (get stepConfig "uses") ;;
  neither <- (if truthy uses0 then ret false
              else run0 <- eval (get stepConfig "run") ;;
                   ret (negb (truthy run0))) ;;
  when neither
    (push {| message := ("Job '" ++ jobId ++ "', step " ++ index_string stepIndex
                         ++ ": must have either 'uses' or 'run'")%string;
             severity := error |}) ;;
  id1 <- eval (get stepConfig "id") ;;
  name1 <- eval (get stepConfig "name") ;;
  uses1 <- eval (get stepConfig "uses") ;;
  run1 <- eval (get stepConfig "run") ;;
  with1 <- eval (get stepConfig "with") ;;
  env1 <- eval (get stepConfig "env") ;;
  if1 <- eval (get stepConfig "if") ;;
  coe1 <- eval (get stepConfig "continue-on-error") ;;
  ret {| step_type := "step";
         step_id := id1;
         step_name := name1;
         uses := uses1;
         run := run1;
         step_with := with1;
         step_env := env1;
         step_if := if1;
         continueOnError := coe1 |}.

(** The elements of a sequence with their positions, for an index loop. *)
Definition with_index {A : Type} (l : list A) : list (nat * A) :=
  combine (seq 0 (List.length l)) l.

(** One turn of the loop over [jobConfig.steps]: parse the step at index
    [fst ix] and push it to [steps]. *)
Definition parseJob_step (jobId : string) (acc : list StepAST) (ix : nat * JsVal)
  : Parser (list StepAST) :=
  step <- parseStep (snd ix) jobId (fst ix) ;;
  ret (acc ++ [step]).

(** [parseJob(jobId, jobConfig, errors)] *)
Definition parseJob (jobId : string) (jobConfig : JsVal) : Parser JobAST :=
  runsOn0 <- eval (get jobConfig "runs-on") ;;
  when (negb (truthy runsOn0))
    (push {| message := ("Job '" ++ jobId
                         ++ "': missing required field 'runs-on'")%string;
             severity := error |}) ;;
  steps0 <- eval (get jobConfig "steps") ;;
  steps1 <- (match steps0 with
             | VArr elems =>
                 for_each (parseJob_step jobId) (with_index elems) []
             | _ =>
                 when (truthy steps0)
                   (push {| message := ("Job '" ++ jobId
                                        ++ "': 'steps' must be an array")%string;
                            severity := error |}) ;;
                 ret []
             end) ;;
  needs0 <- eval (get jobConfig "needs") ;;
  let needs1 := if truthy needs0 then Some (as_list needs0) else None in
  strategy0 <- eval (get jobConfig "strategy") ;;
  strategy1 <- (if truthy strategy0
                then m <- eval (get strategy0 "matrix") ;;
                     ff <- eval (get strategy0 "fail-fast") ;;
                     mp <- eval (get strategy0 "max-parallel") ;;
                     ret (Some {| matrix := m; failFast := ff; maxParallel := mp |})
                else ret None) ;;
  name1 <- eval (get jobConfig "name") ;;
  runsOn1 <- eval (get jobConfig "runs-on") ;;
  if1 <- eval (get jobConfig "if") ;;
  env1 <- eval (get jobConfig "env") ;;
  permissions1 <- eval (get jobConfig "permissions") ;;
  timeout1 <- eval (get jobConfig "timeout-minutes") ;;
  ret {| job_type := "job";
         job_id := jobId;
         job_name := name1;
         runsOn := runsOn1;
         steps := steps1;
         needs := needs1;
         job_if := if1;
         strategy := strategy1;
         job_env := env1;
         permissions := permissions1;
         timeout := timeout1 |}.

(** The local variables [branches], [tags] and [paths] of [parseTrigger]. *)
Record Filters : Type := {
  f_branches : option (list JsVal);
  f_tags : option (list JsVal);
  f_paths : option (list JsVal)
}.

Definition no_filters : Filters :=
  {| f_branches := None; f_tags := None; f_paths := None |}.

(** One turn of the loop over the events of a mapping-shaped [on]. *)
Definition trigger_event (onConfig : JsVal) (fs : Filters) (event : string)
  : Parser Filters :=
  eventConfig <- eval (get onConfig event) ;;
  if truthy eventConfig && (typeof eventConfig =? "object")%string then
    b <- eval (get eventConfig "branches") ;;
    let fs1 := if truthy b
               then {| f_branches := Some (as_list b);
                       f_tags := f_tags fs;
                       f_paths := f_paths fs |}
               else fs in
    t <- eval (get eventConfig "tags") ;;
    let fs2 := if truthy t
               then {| f_branches := f_branches fs1;
                       f_tags := Some (as_list t);
                       f_paths := f_paths fs1 |}
               else fs1 in
    p <- eval (get eventConfig "paths") ;;
    let fs3 := if truthy p
               then {| f_branches := f_branches fs2;
                       f_tags := f_tags fs2;
                       f_paths := Some (as_list p) |}
               else fs2 in
    ret fs3
  else ret fs.

(** [parseTrigger(onConfig, errors)] *)
Definition parseTrigger (onConfig : JsVal) : Parser TriggerAST :=
  if (typeof onConfig =? "string")%string then
    ret {| trigger_type := "trigger"; events := [onConfig];
           branches := None; tags := None; paths := None |}
  else if isArray onConfig then
    ret {| trigger_type := "trigger"; events := as_list onConfig;
           branches := None; tags := None; paths := None |}
  else if (typeof onConfig =? "object")%string then
    keys <- eval (Object_keys onConfig) ;;
    fs <- for_each (trigger_event onConfig) keys no_filters ;;
    ret {| trigger_type := "trigger"; events := map VStr keys;
           branches := f_branches fs; tags := f_tags fs; paths := f_paths fs |}
  else
    ret {| trigger_type := "trigger"; events := [];
           branches := None; tags := None; paths := None |}.

(** One turn of the loop over [Object.entries(raw.jobs)]:
    [jobs[jobId] = this.parseJob(jobId, jobConfig, errors)]. *)
Definition buildWorkflowAST_job (acc : list (string * JobAST))
    (entry : string * JsVal) : Parser (list (string * JobAST)) :=
  job <- parseJob (fst entry) (snd entry) ;;
  ret (obj_set acc (fst entry) job).

(** [buildWorkflowAST(raw, filePath, errors)] *)
Definition buildWorkflowAST (raw : JsVal) (filePath : option string)
  : Parser WorkflowAST :=
  on0 <- eval (get raw "on") ;;
  when (negb (truthy on0))
    (push {| message := "Missing required field 'on' (trigger configuration)";
             severity := error |}) ;;
  jobs0 <- eval (get raw "jobs") ;;
  when (negb (truthy jobs0) || negb (typeof jobs0 =? "object")%string)
    (push {| message := "Missing or invalid 'jobs' field";
             severity := error |}) ;;
  on1 <- eval (get raw "on") ;;
  trigger <- parseTrigger on1 ;;
  jobs1 <- eval (get raw "jobs") ;;
  jobs2 <- (if truthy jobs1 && (typeof jobs1 =? "object")%string
            then
              entries <- eval (Object_entries jobs1) ;;
              for_each buildWorkflowAST_job entries []
            else ret []) ;;
  name1 <- eval (get raw "name") ;;
  env1 <- eval (get raw "env") ;;
  defaults1 <- eval (get raw "defaults") ;;
  concurrency1 <- eval (get raw "concurrency") ;;
  ret {| workflow_type := "workflow";
         workflow_name := name1;
         on := trigger;
         jobs := jobs2;
         workflow_env := env1;
         defaults := defaults1;
         concurrency := concurrency1;
         location := {| line := 1; column := 1; file := filePath |} |}.

(** ** The public entry points *)

(** What the parser takes from its host: the decoder [yaml.load], which
    returns a tree or throws, and the message text the engine gives to each
    of its [TypeError]s. *)
Record Host : Type := {
  yaml_load : string -> Completion JsVal;
  type_error_message : TypeErrorSite -> string
}.

(** [error instanceof Error ? error.message : String(error)]: every value
    thrown inside [parse] is an [Error]. *)
Definition exception_message (h : Host) (e : JsException) : string :=
  match e with
  | TypeError site => type_error_message h site
  | Error msg => msg
  end.

(** The [catch] clause of [parse]. *)
Definition parse_catch (h : Host) (e : JsException) : ParseResult :=
  {| ast := None;
     errors := [ {| message := ("YAML parse error: "
                                ++ exception_message h e)%string;
                    severity := error |} ] |}.

(** [WorkflowParser.parse(yamlContent, filePath)] *)
Definition parse (h : Host) (yamlContent : string) (filePath : option string)
  : Completion ParseResult :=
  match yaml_load h yamlContent with
  | Throw e => Normal (parse_catch h e)
  | Normal rawYaml =>
      if negb (truthy rawYaml) || negb (typeof rawYaml =? "object")%string then
        Normal {| ast := None;
                  errors := [ {| message := "Invalid YAML: expected object";
                                 severity := error |} ] |}
      else
        match buildWorkflowAST rawYaml filePath [] with
        | (Normal tree, errs) => Normal {| ast := Some tree; errors := errs |}
        | (Throw e, _) => Normal (parse_catch h e)
        end
  end.

Definition newline : string := String (ascii_of_nat 10) EmptyString.

(** [errors.map(e => e.message).join('\n')] *)
Definition join_messages (errs : list ParseError) : string :=
  String.concat newline (map message errs).

Definition is_error (e : ParseError) : bool :=
  match severity e with error => true | warning => false end.

(** The body of [parseWorkflow] after its call of [parse]. *)
Definition parseWorkflow_result (result : ParseResult) : Completion WorkflowAST :=
  match ast result with
  | None =>
      Throw (Error ("Failed to parse workflow:" ++ newline
                    ++ join_messages (errors result))%string)
  | Some tree =>
      let criticalErrors := filter is_error (errors result) in
      if (0 <? List.length (errors result))%nat
         && (0 <? List.length criticalErrors)%nat then
        Throw (Error ("Workflow has critical errors:" ++ newline
                      ++ join_messages criticalErrors)%string)
      else Normal tree
  end.

(** [parseWorkflow(yamlContent, filePath)] *)
Definition parseWorkflow (h : Host) (yamlContent : string) (filePath : option string)
  : Completion WorkflowAST :=
  match parse h yamlContent filePath with
  | Normal result => parseWorkflow_result result
  | Throw e => Throw e
  end.

(** ** The diagnostics, as the specification lists them

    The order of detection written out as a list: the check of [on], the
    check of [jobs], then job by job the check of [runs-on] followed by the
    findings about the job's steps, step by step. *)

Definition missing_on : ParseError :=
  {| message := "Missing required field 'on' (trigger configuration)";
     severity := error |}.

Definition invalid_jobs : ParseError :=
  {| message := "Missing or invalid 'jobs' field"; severity := error |}.

Definition missing_runs_on (jobId : string) : ParseError :=
  {| message := ("Job '" ++ jobId ++ "': missing required field 'runs-on'")%string;
     severity := error |}.

Definition steps_not_array (jobId : string) : ParseError :=
  {| message := ("Job '" ++ jobId ++ "': 'steps' must be an array")%string;
     severity := error |}.

Definition step_without_action (jobId : string) (stepIndex : nat) : ParseError :=
  {| message := ("Job '" ++ jobId ++ "', step " ++ index_string stepIndex
                 ++ ": must have either 'uses' or 'run'")%string;
     severity := error |}.

Definition invalid_yaml : ParseError :=
  {| message := "Invalid YAML: expected object"; severity := error |}.

Definition on_check (raw : JsVal) : list ParseError :=
  if truthy (prop raw "on") then [] else [missing_on].

Definition is_object (v : JsVal) : bool :=
  truthy v && (typeof v =? "object")%string.

Definition jobs_check (raw : JsVal) : list ParseError :=
  if is_object (prop raw "jobs") then [] else [invalid_jobs].

Definition step_check (jobId : string) (ix : nat * JsVal) : list ParseError :=
  if truthy (prop (snd ix) "uses") || truthy (prop (snd ix) "run") then []
  else [step_without_action jobId (fst ix)].

Definition steps_check (jobId : string) (stepsConfig : JsVal) : list ParseError :=
  match stepsConfig with
  | VArr elems => flat_map (step_check jobId) (with_index elems)
  | _ => if truthy stepsConfig then [steps_not_array jobId] else []
  end.

Definition job_check (entry : string * JsVal) : list ParseError :=
  (if truthy (prop (snd entry) "runs-on") then [] else [missing_runs_on (fst entry)])
  ++ steps_check (fst entry) (prop (snd entry) "steps").

(** The entries the loop over [raw.jobs] visits. *)
Definition job_entries (raw : JsVal) : list (string * JsVal) :=
  if is_object (prop raw "jobs") then own_entries (prop raw "jobs") else [].

Definition detected (raw : JsVal) : list ParseError :=
  on_check raw ++ jobs_check raw ++ flat_map job_check (job_entries raw).

(** The documents on which no construction function meets a [null] it
    dereferences: [on] is not [null], no job entry and no element of a
    [steps] sequence is [null] or [undefined]. *)
Definition steps_total (jobConfig : JsVal) : bool :=
  match prop jobConfig "steps" with
  | VArr elems => forallb (fun s => negb (nullish s)) elems
  | _ => true
  end.

Definition null_free (raw : JsVal) : bool :=
  match prop raw "on" with VNull => false | _ => true end
  && forallb (fun entry => negb (nullish (snd entry)) && steps_total (snd entry))
       (job_entries raw).

(** ** The nodes built from configurations without [null]

    What the construction functions return when every property read
    succeeds. *)

Definition step_node (stepConfig : JsVal) : StepAST :=
  {| step_type := "step";
     step_id := prop stepConfig "id";
     step_name := prop stepConfig "name";
     uses := prop stepConfig "uses";
     run := prop stepConfig "run";
     step_with := prop stepConfig "with";
     step_env := prop stepConfig "env";
     step_if := prop stepConfig "if";
     continueOnError := prop stepConfig "continue-on-error" |}.

Definition job_node (jobId : string) (jobConfig : JsVal) : JobAST :=
  {| job_type := "job";
     job_id := jobId;
     job_name := prop jobConfig "name";
     runsOn := prop jobConfig "runs-on";
     steps := match prop jobConfig "steps" with
              | VArr elems => map step_node elems
              | _ => []
              end;
     needs := if truthy (prop jobConfig "needs")
              then Some (as_list (prop jobConfig "needs")) else None;
     job_if := prop jobConfig "if";
     strategy := if truthy (prop jobConfig "strategy")
                 then Some {| matrix := prop (prop jobConfig "strategy") "matrix";
                              failFast := prop (prop jobConfig "strategy") "fail-fast";
                              maxParallel := prop (prop jobConfig "strategy") "max-parallel" |}
                 else None;
     job_env := prop jobConfig "env";
     permissions := prop jobConfig "permissions";
     timeout := prop jobConfig "timeout-minutes" |}.

Definition job_nodes (entries : list (string * JsVal)) (acc : list (string * JobAST))
  : list (string * JobAST) :=
  fold_left (fun acc entry => obj_set acc (fst entry) (job_node (fst entry) (snd entry)))
    entries acc.

Definition workflow_node (raw : JsVal) (filePath : option string)
    (trigger : TriggerAST) : WorkflowAST :=
  {| workflow_type := "workflow";
     workflow_name := prop raw "name";
     on := trigger;
     jobs := job_nodes (job_entries raw) [];
     workflow_env := prop raw "env";
     defaults := prop raw "defaults";
     concurrency := prop raw "concurrency";
     location := {| line := 1; column := 1; file := filePath |} |}.

(** ** Trigger filters, as the specification states them *)

(** The filter an event's configuration gives for [field], if it gives one. *)
Definition filter_of (field : string) (eventConfig : JsVal) : option (list JsVal) :=
  match eventConfig with
  | VObj props =>
      if truthy (lookup field props) then Some (as_list (lookup field props))
      else None
  | _ => None
  end.

(** The filter of the last event, in iteration order, that gives one. *)
Fixpoint last_filter (field : string) (evs : list (string * JsVal))
  : option (list JsVal) :=
  match evs with
  | [] => None
  | (_, eventConfig) :: rest =>
      match last_filter field rest with
      | Some f => Some f
      | None => filter_of field eventConfig
      end
  end.

(** The filters after the event with configuration [eventConfig], given
    the filters [fs] collected before it. *)
Definition event_filters (fs : Filters) (eventConfig : JsVal) : Filters :=
  {| f_branches := match filter_of "branches" eventConfig with
                   | Some f => Some f
                   | None => f_branches fs
                   end;
     f_tags := match filter_of "tags" eventConfig with
               | Some f => Some f
               | None => f_tags fs
               end;
     f_paths := match filter_of "paths" eventConfig with
                | Some f => Some f
                | None => f_paths fs
                end |}.

Definition collect_filters (props : list (string * JsVal)) (keys : list string)
    (fs : Filters) : Filters :=
  fold_left (fun fs k => event_filters fs (lookup k props)) keys fs.

(** The trigger built from an [on] value other than [null]. *)
Definition trigger_node (onConfig : JsVal) : TriggerAST :=
  match onConfig with
  | VStr _ =>
      {| trigger_type := "trigger"; events := [onConfig];
         branches := None; tags := None; paths := None |}
  | VArr elems =>
      {| trigger_type := "trigger"; events := elems;
         branches := None; tags := None; paths := None |}
  | VObj props =>
      let fs := collect_filters props (map fst props) no_filters in
      {| trigger_type := "trigger"; events := map VStr (map fst props);
         branches := f_branches fs; tags := f_tags fs; paths := f_paths fs |}
  | VBinary _ =>
      {| trigger_type := "trigger";
         events := map VStr (map fst (own_entries onConfig));
         branches := None; tags := None; paths := None |}
  | _ =>
      {| trigger_type := "trigger"; events := [];
         branches := None; tags := None; paths := None |}
  end.

(** ** Sample hosts and documents *)

(** The message texts of V8. *)
Definition v8_message (site : TypeErrorSite) : string :=
  match site with
  | ReadOfNullish base name =>
      ("Cannot read properties of "
       ++ (match base with VNull => "null" | _ => "undefined" end)
       ++ " (reading '" ++ name ++ "')")%string
  | ObjectOfNullish => "Cannot convert undefined or null to object"
  end.

(** A host whose decoder knows the documents of [docs] and rejects every
    other text. *)
Fixpoint decode (docs : list (string * JsVal)) (text : string) : Completion JsVal :=
  match docs with
  | [] => Throw (Error "unexpected end of the stream")
  | (t, v) :: rest => if (t =? text)%string then Normal v else decode rest text
  end.

Definition host_of (docs : list (string * JsVal)) : Host :=
  {| yaml_load := decode docs; type_error_message := v8_message |}.

Definition lines (ls : list string) : string := String.concat newline ls.

Definition minimal_yaml : string :=
  lines [ "on: push";
          "jobs:";
          "  test:";
          "    runs-on: ubuntu-latest";
          "    steps:";
          "      - run: echo test" ].

Definition minimal_tree : JsVal :=
  VObj [ ("on", VStr "push");
         ("jobs", VObj [ ("test",
                          VObj [ ("runs-on", VStr "ubuntu-latest");
                                 ("steps", VArr [ VObj [ ("run", VStr "echo test") ] ]) ]) ]) ].

(** The workflow that [minimal_yaml] describes. *)
Definition minimal_ast (filePath : option string) : WorkflowAST :=
  {| workflow_type := "workflow";
     workflow_name := VUndefined;
     on := {| trigger_type := "trigger"; events := [VStr "push"];
              branches := None; tags := None; paths := None |};
     jobs := [ ("test",
                {| job_type := "job";
                   job_id := "test";
                   job_name := VUndefined;
                   runsOn := VStr "ubuntu-latest";
                   steps := [ {| step_type := "step";
                                 step_id := VUndefined;
                                 step_name := VUndefined;
                                 uses := VUndefined;
                                 run := VStr "echo test";
                                 step_with := VUndefined;
                                 step_env := VUndefined;
                                 step_if := VUndefined;
                                 continueOnError := VUndefined |} ];
                   needs := None;
                   job_if := VUndefined;
                   strategy := None;
                   job_env := VUndefined;
                   permissions := VUndefined;
                   timeout := VUndefined |}) ];
     workflow_env := VUndefined;
     defaults := VUndefined;
     concurrency := VUndefined;
     location := {| line := 1; column := 1; file := filePath |} |}.

(** The shape of a valid minimal document: a string trigger and one job
    with a runner and a sequence of steps. *)
Definition minimal_document (trigger jobId : string) (runner : JsVal)
    (stepConfigs : list (list (string * JsVal))) : JsVal :=
  VObj [ ("on", VStr trigger);
         ("jobs", VObj [ (jobId,
                          VObj [ ("runs-on", runner);
                                 ("steps", VArr (map VObj stepConfigs)) ]) ]) ].

Definition zero : JsVal := VNum (S754_zero false).

(** A decoded value that is nothing, [null], a boolean, a number or a
    string.  (A timestamp or binary scalar is decoded to an object.) *)
Definition scalar_or_null (v : JsVal) : bool :=
  match v with
  | VUndefined | VNull | VBool _ | VNum _ | VStr _ => true
  | _ => false
  end.

Definition sample_docs : list (string * JsVal) :=
  [ (minimal_yaml, minimal_tree);
    ("", VUndefined);
    ("~", VNull);
    ("hello", VStr "hello");
    ("[]", VArr []);
    (lines ["on:"; "jobs: {}"], VObj [("on", VNull); ("jobs", VObj [])]);
    (lines ["jobs:"; "  build:"], VObj [("jobs", VObj [("build", VNull)])]);
    (lines ["on: push"; "jobs: []"], VObj [("on", VStr "push"); ("jobs", VArr [])]);
    (lines ["on: push"; "jobs:"; "  - steps: []"],
     VObj [("on", VStr "push"); ("jobs", VArr [VObj [("steps", VArr [])]])]);
    (lines ["on: false"; "jobs: {}"], VObj [("on", VBool false); ("jobs", VObj [])]);
    (lines ["on: 0"], VObj [("on", zero)]) ].

Definition node : Host := host_of sample_docs.

(** ** Index keys *)

(** Strings that start with a decimal digit, as every index key does. *)
Definition digit_headed (s : string) : bool :=
  match s with
  | String c _ =>
      match c with
      | "0" | "1" | "2" | "3" | "4" | "5" | "6" | "7" | "8" | "9" => true
      | _ => false
      end%char
  | EmptyString => false
  end.

(** ** The rest of the public surface *)

(** [WorkflowParser.normalize(ast)]: returns its argument as it is. *)
Definition normalize (tree : WorkflowAST) : WorkflowAST := tree.

(** ** Documents without findings *)

(** A step that is not [null] and has a truthy [uses] or [run]. *)
Definition clean_step (stepConfig : JsVal) : bool :=
  negb (nullish stepConfig)
  && (truthy (prop stepConfig "uses") || truthy (prop stepConfig "run")).

(** A job that is not [null], has a truthy [runs-on], and whose [steps] is
    either falsy or a sequence of clean steps. *)
Definition clean_job (jobConfig : JsVal) : bool :=
  negb (nullish jobConfig)
  && truthy (prop jobConfig "runs-on")
  && match prop jobConfig "steps" with
     | VArr elems => forallb clean_step elems
     | stepsConfig => negb (truthy stepsConfig)
     end.

(** A document that [typeof] calls an object and that is not [null] (a
    mapping, a sequence, a date or a typed array), with a truthy [on], such
    an object under [jobs], and clean jobs only. *)
Definition clean_workflow (raw : JsVal) : bool :=
  is_object raw
  && truthy (prop raw "on")
  && is_object (prop raw "jobs")
  && forallb (fun entry => clean_job (snd entry)) (job_entries raw).

(** The workflow [tree] with another file in its location. *)
Definition with_file (filePath : option string) (tree : WorkflowAST) : WorkflowAST :=
  {| workflow_type := workflow_type tree;
     workflow_name := workflow_name tree;
     on := on tree;
     jobs := jobs tree;
     workflow_env := workflow_env tree;
     defaults := defaults tree;
     concurrency := concurrency tree;
     location := {| line := line (location tree);
                    column := column (location tree);
                    file := filePath |} |}.

(** The first line of the message [parseWorkflow] throws for a result. *)
Definition failure_heading (result : ParseResult) : string :=
  match ast result with
  | None => "Failed to parse workflow:"
  | Some _ => "Workflow has critical errors:"
  end.

(** * Properties *)

(** ** What [parse] does with a decoded document *)

Lemma scalar_not_object (v : JsVal) :
  scalar_or_null v = true ->
  negb (truthy v) || negb (typeof v =? "object")%string = true.
Proof.
  destruct v as [ | | b | x | s | elems | props | t | bytes | f ]; intro Hs;
    try discriminate Hs; cbn; rewrite ?orb_true_r; reflexivity.
Qed.

Section Decoded.

(** A call [parse(yamlContent, filePath)] in which the decoder returns the
    tree [rawYaml]. *)
Variable h : Host.
Variable yamlContent : string.
Variable filePath : option string.
Variable rawYaml : JsVal.
Hypothesis decoded : yaml_load h yamlContent = Normal rawYaml.

(** C1 (as amended): when the decoder hands back a string, a number, a
    boolean, [null] or nothing at all, [parse] returns a null AST and the
    single error diagnostic "Invalid YAML: expected object"; the
    construction functions are not entered. *)
Theorem parse_rejects_scalars :
  scalar_or_null rawYaml = true ->
  parse h yamlContent filePath
  = Normal {| ast := None; errors := [invalid_yaml] |}.
Proof.
  intro Hs. unfold parse. rewrite decoded.
  rewrite (scalar_not_object rawYaml Hs). reflexivity.
Qed.

(** C2: on every text the decoder decodes, [parse] completes with a result
    pair and never with an exception; an exception raised by a construction
    function comes back as the one diagnostic of a null-AST result. *)
Theorem parse_never_throws :
  exists result,
    parse h yamlContent filePath = Normal result
    /\ (forall e errs,
           is_object rawYaml = true ->
           buildWorkflowAST rawYaml filePath [] = (Throw e, errs) ->
           result = parse_catch h e).
Proof.
  unfold parse, is_object. rewrite decoded.
  destruct (truthy rawYaml); cbn [negb orb andb].
  - destruct (typeof rawYaml =? "object")%string; cbn [negb].
    + destruct (buildWorkflowAST rawYaml filePath []) as [[tree | e] errs].
      * eexists. split; [ reflexivity | ]. intros e' errs' _ H. discriminate H.
      * eexists. split; [ reflexivity | ]. intros e' errs' _ H.
        injection H as He _. subst e'. reflexivity.
    + eexists. split; [ reflexivity | ]. intros e errs H. discriminate H.
  - eexists. split; [ reflexivity | ]. intros e errs H. discriminate H.
Qed.

End Decoded.

Lemma parse_rejects_scalars_witness :
  parse node "hello" None = Normal {| ast := None; errors := [invalid_yaml] |}.
Proof.
  apply (parse_rejects_scalars node "hello" None (VStr "hello")); reflexivity.
Defined.

(** C1 as written fails twice: an empty top-level sequence passes the
    [typeof] test and comes back as a workflow with two diagnostics, and
    the message for a top-level [null] is not "Invalid input: expected
    object". *)
Lemma parse_top_level_counterexample :
  (exists tree errs,
      parse node "[]" None = Normal {| ast := Some tree; errors := errs |}
      /\ errs = [missing_on; invalid_jobs])
  /\ parse node "~" None
     <> Normal {| ast := None;
                  errors := [ {| message := "Invalid input: expected object";
                                 severity := error |} ] |}.
Proof.
  split.
  - eexists. eexists. split; vm_compute; reflexivity.
  - vm_compute. intro H. discriminate H.
Qed.

Lemma parse_never_throws_witness :
  exists result,
    parse node (lines ["jobs:"; "  build:"]) None = Normal result
    /\ ast result = None.
Proof.
  destruct (parse_never_throws node (lines ["jobs:"; "  build:"]) None
              (VObj [("jobs", VObj [("build", VNull)])]) eq_refl)
    as [result [Hparse Hcatch]].
  exists result. split; [ exact Hparse | ].
  rewrite (Hcatch (TypeError (ReadOfNullish VNull "runs-on")) [missing_on]
             eq_refl eq_refl).
  reflexivity.
Defined.

(** ** The strict entry point *)

Lemma critical_present (errs : list ParseError) :
  (exists e, In e errs /\ severity e = error) ->
  (0 <? List.length errs)%nat && (0 <? List.length (filter is_error errs))%nat
  = true.
Proof.
  intros [e [Hin Hsev]].
  assert (Hf : In e (filter is_error errs)).
  { apply filter_In. split; [ exact Hin | ]. unfold is_error. now rewrite Hsev. }
  destruct errs as [ | e0 errs0 ]; [ contradiction | ].
  destruct (filter is_error (e0 :: errs0)); [ contradiction | reflexivity ].
Qed.

Lemma critical_absent (errs : list ParseError) :
  (forall e, In e errs -> severity e = warning) ->
  filter is_error errs = [].
Proof.
  induction errs as [ | e0 errs0 IH ]; intro Hall; [ reflexivity | ].
  cbn [filter]. unfold is_error at 1.
  rewrite (Hall e0 (or_introl eq_refl)).
  apply IH. intros e Hin. apply Hall. right. exact Hin.
Qed.

(** C3: [parseWorkflow] hands the result of [parse] to its checks, and
    these fail in two distinct ways.  A null AST throws "Failed to parse
    workflow:" followed by all diagnostic messages joined by newlines.  A
    non-null AST with some error-severity diagnostic throws "Workflow has
    critical errors:" followed by the messages of the error-severity
    diagnostics only.  A non-null AST whose diagnostics are all warnings
    (or absent) is returned as it is. *)
Theorem parseWorkflow_failure_modes (result : ParseResult) :
  (forall h yamlContent filePath,
      parse h yamlContent filePath = Normal result ->
      parseWorkflow h yamlContent filePath = parseWorkflow_result result)
  /\ (ast result = None ->
      parseWorkflow_result result
      = Throw (Error ("Failed to parse workflow:" ++ newline
                      ++ String.concat newline (map message (errors result)))%string))
  /\ (forall tree,
         ast result = Some tree ->
         (exists e, In e (errors result) /\ severity e = error) ->
         parseWorkflow_result result
         = Throw (Error ("Workflow has critical errors:" ++ newline
                         ++ String.concat newline
                              (map message
                                 (filter (fun e => match severity e with
                                                   | error => true
                                                   | warning => false
                                                   end)
                                    (errors result))))%string))
  /\ (forall tree,
         ast result = Some tree ->
         (forall e, In e (errors result) -> severity e = warning) ->
         parseWorkflow_result result = Normal tree).
Proof.
  repeat split.
  - intros h yamlContent filePath Hparse. unfold parseWorkflow.
    rewrite Hparse. reflexivity.
  - intro Hnull. unfold parseWorkflow_result. rewrite Hnull. reflexivity.
  - intros tree Hast Hcrit. unfold parseWorkflow_result. rewrite Hast.
    rewrite (critical_present _ Hcrit). reflexivity.
  - intros tree Hast Hwarn. unfold parseWorkflow_result. rewrite Hast.
    rewrite (critical_absent _ Hwarn). cbn. rewrite andb_false_r. reflexivity.
Qed.

Lemma parseWorkflow_failure_modes_witness :
  parseWorkflow_result
    {| ast := Some (minimal_ast None);
       errors := [ {| message := "soft finding"; severity := warning |};
                   invalid_jobs;
                   missing_on ] |}
  = Throw (Error ("Workflow has critical errors:" ++ newline
                  ++ "Missing or invalid 'jobs' field" ++ newline
                  ++ "Missing required field 'on' (trigger configuration)")%string).
Proof.
  destruct (parseWorkflow_failure_modes
              {| ast := Some (minimal_ast None);
                 errors := [ {| message := "soft finding"; severity := warning |};
                             invalid_jobs;
                             missing_on ] |})
    as [_ [_ [Hcritical _]]].
  rewrite (Hcritical (minimal_ast None) eq_refl).
  - reflexivity.
  - exists missing_on. split; [ cbn; auto | reflexivity ].
Defined.

(** ** The construction functions on configurations without [null] *)

Lemma get_total (v : JsVal) (k : string) :
  nullish v = false -> get v k = Normal (prop v k).
Proof. destruct v; intro H; try discriminate H; reflexivity. Qed.

Lemma truthy_not_nullish (v : JsVal) : truthy v = true -> nullish v = false.
Proof. destruct v; intro H; try discriminate H; reflexivity. Qed.

Lemma bind_eval {A B : Type} (a : A) (k : A -> Parser B) (errs : list ParseError) :
  bind (eval (Normal a)) k errs = k a errs.
Proof. reflexivity. Qed.

Lemma bind_ret {A B : Type} (a : A) (k : A -> Parser B) (errs : list ParseError) :
  bind (ret a) k errs = k a errs.
Proof. reflexivity. Qed.

Lemma bind_push {B : Type} (e : ParseError) (k : unit -> Parser B)
    (errs : list ParseError) :
  bind (push e) k errs = k tt (errs ++ [e]).
Proof. reflexivity. Qed.

Lemma bind_normal {A B : Type} (m : Parser A) (k : A -> Parser B)
    (errs errs' : list ParseError) (a : A) :
  m errs = (Normal a, errs') -> bind m k errs = k a errs'.
Proof. intro H. unfold bind. rewrite H. reflexivity. Qed.

Lemma bind_throw {A B : Type} (m : Parser A) (k : A -> Parser B)
    (errs errs' : list ParseError) (e : JsException) :
  m errs = (Throw e, errs') -> bind m k errs = (Throw e, errs').
Proof. intro H. unfold bind. rewrite H. reflexivity. Qed.

Ltac run_parser :=
  cbv beta iota delta [bind eval ret when push negb orb andb fst snd].

Lemma parseStep_total (stepConfig : JsVal) (jobId : string) (stepIndex : nat)
    (errs : list ParseError) :
  nullish stepConfig = false ->
  parseStep stepConfig jobId stepIndex errs
  = (Normal (step_node stepConfig),
     errs ++ step_check jobId (stepIndex, stepConfig)).
Proof.
  intro Hn. unfold parseStep, step_check, step_without_action.
  rewrite !(get_total stepConfig) by exact Hn.
  run_parser.
  destruct (truthy (prop stepConfig "uses")); run_parser.
  - rewrite app_nil_r. reflexivity.
  - destruct (truthy (prop stepConfig "run")); run_parser;
      rewrite ?app_nil_r; reflexivity.
Qed.

Lemma steps_loop (jobId : string) (elems : list JsVal) :
  forall (i : nat) (acc : list StepAST) (errs : list ParseError),
    forallb (fun s => negb (nullish s)) elems = true ->
    for_each (parseJob_step jobId) (combine (seq i (List.length elems)) elems) acc errs
    = (Normal (acc ++ map step_node elems),
       errs ++ flat_map (step_check jobId) (combine (seq i (List.length elems)) elems)).
Proof.
  induction elems as [ | s rest IH ]; intros i acc errs Hall.
  - cbn. rewrite !app_nil_r. reflexivity.
  - apply andb_prop in Hall. destruct Hall as [Hs Hrest].
    apply negb_true_iff in Hs.
    cbn [List.length seq combine for_each flat_map map].
    unfold parseJob_step at 1. run_parser.
    rewrite (parseStep_total s jobId i errs Hs).
    rewrite (IH (S i) _ _ Hrest).
    rewrite <- !app_assoc. reflexivity.
Qed.

Lemma parseJob_total (jobId : string) (jobConfig : JsVal) (errs : list ParseError) :
  nullish jobConfig = false ->
  steps_total jobConfig = true ->
  parseJob jobId jobConfig errs
  = (Normal (job_node jobId jobConfig), errs ++ job_check (jobId, jobConfig)).
Proof.
  intros Hn Hsteps.
  unfold parseJob, job_node, job_check, steps_check, steps_total in *.
  rewrite !(get_total jobConfig) by exact Hn.
  run_parser.
  assert (Hstrategy :
            forall k, truthy (prop jobConfig "strategy") = true ->
                      get (prop jobConfig "strategy") k
                      = Normal (prop (prop jobConfig "strategy") k)).
  { intros k Ht. apply get_total, truthy_not_nullish, Ht. }
  destruct (truthy (prop jobConfig "runs-on"));
    destruct (prop jobConfig "steps")
      as [ | | [ | ] | [ sg | sg | | sg m e ] | s | elems | props | t | bytes | f ] eqn:Esteps;
    cbn [truthy];
    try destruct (s =? "")%string;
    run_parser;
    try (unfold with_index; rewrite (steps_loop jobId elems 0 _ _ Hsteps));
    destruct (truthy (prop jobConfig "strategy")) eqn:Estrategy;
    rewrite ?Hstrategy by reflexivity; run_parser;
    cbn [app]; rewrite <- ?app_assoc, ?app_nil_r; reflexivity.
Qed.

Lemma jobs_loop (entries : list (string * JsVal)) :
  forall (acc : list (string * JobAST)) (errs : list ParseError),
    forallb (fun entry => negb (nullish (snd entry)) && steps_total (snd entry))
      entries = true ->
    for_each buildWorkflowAST_job entries acc errs
    = (Normal (job_nodes entries acc), errs ++ flat_map job_check entries).
Proof.
  induction entries as [ | [jobId jobConfig] rest IH ]; intros acc errs Hall.
  - cbn. rewrite app_nil_r. reflexivity.
  - apply andb_prop in Hall. destruct Hall as [Hjob Hrest].
    apply andb_prop in Hjob. destruct Hjob as [Hn Hsteps].
    apply negb_true_iff in Hn. cbn [snd] in Hn, Hsteps.
    cbn [for_each flat_map]. unfold job_nodes. cbn [fold_left].
    unfold buildWorkflowAST_job at 1. run_parser.
    rewrite (parseJob_total jobId jobConfig errs Hn Hsteps).
    rewrite (IH _ _ Hrest). rewrite <- app_assoc. reflexivity.
Qed.

Lemma is_object_shape (v : JsVal) :
  is_object v
  = match v with
    | VArr _ | VObj _ | VDate _ | VBinary _ => true
    | _ => false
    end.
Proof.
  destruct v as [ | | b | x | s | elems | props | t | bytes | f ]; unfold is_object; cbn;
    rewrite ?andb_false_r; reflexivity.
Qed.

Lemma index_string_digit (i : nat) : digit_headed (index_string i) = true.
Proof.
  unfold index_string. destruct (Nat.to_uint i); reflexivity.
Qed.

Lemma lookup_indexed_name (k : string) (l : list JsVal) :
  digit_headed k = false ->
  forall i, lookup k (indexed_from i l) = VUndefined.
Proof.
  intro Hname. induction l as [ | x rest IH ]; intro i; [ reflexivity | ].
  cbn [indexed_from lookup].
  destruct (String.eqb_spec (index_string i) k) as [Heq | _]; [ | apply IH ].
  rewrite <- Heq, index_string_digit in Hname. discriminate Hname.
Qed.

Lemma lookup_bytes_no_filter (field k : string) (bytes : list byte) :
  forall i, filter_of field (lookup k (indexed_from i (map byte_number bytes))) = None.
Proof.
  induction bytes as [ | b rest IH ]; intro i; [ reflexivity | ].
  cbn [map indexed_from lookup].
  destruct (index_string i =? k)%string; [ | apply IH ].
  unfold byte_number. destruct (Byte.to_N b); reflexivity.
Qed.

Lemma trigger_event_value (onConfig : JsVal) (fs : Filters)
    (event : string) (errs : list ParseError) :
  nullish onConfig = false ->
  trigger_event onConfig fs event errs
  = (Normal (event_filters fs (prop onConfig event)), errs).
Proof.
  intro Hn. unfold trigger_event, event_filters, filter_of.
  rewrite (get_total onConfig event Hn). rewrite bind_eval.
  destruct fs as [fb ft fp].
  destruct (prop onConfig event) as [ | | b | x | s | elems | cfg | t | bytes | f ];
    cbn [truthy typeof get prop f_branches f_tags f_paths];
    try (change ("boolean" =? "object")%string with false);
    try (change ("number" =? "object")%string with false);
    try (change ("string" =? "object")%string with false);
    try (change ("undefined" =? "object")%string with false);
    try (change ("function" =? "object")%string with false);
    try (change ("object" =? "object")%string with true);
    try (change ("branches" =? "with")%string with false);
    try (change ("tags" =? "with")%string with false);
    try (change ("paths" =? "with")%string with false);
    rewrite ?lookup_indexed_name by reflexivity;
    rewrite ?andb_false_r; run_parser; try reflexivity.
  destruct (truthy (lookup "branches" cfg)), (truthy (lookup "tags" cfg)),
    (truthy (lookup "paths" cfg)); reflexivity.
Qed.

Lemma trigger_event_total (props : list (string * JsVal)) (fs : Filters)
    (event : string) (errs : list ParseError) :
  trigger_event (VObj props) fs event errs
  = (Normal (event_filters fs (lookup event props)), errs).
Proof. apply (trigger_event_value (VObj props)). reflexivity. Qed.

Lemma trigger_loop_binary (bytes : list byte) (keys : list string) :
  forall (fs : Filters) (errs : list ParseError),
    for_each (trigger_event (VBinary bytes)) keys fs errs = (Normal fs, errs).
Proof.
  induction keys as [ | k rest IH ]; intros fs errs; [ reflexivity | ].
  cbn [for_each].
  rewrite (bind_normal _ _ _ _ _
             (trigger_event_value (VBinary bytes) fs k errs eq_refl)).
  replace (event_filters fs (prop (VBinary bytes) k)) with fs; [ apply IH | ].
  destruct fs as [fb ft fp]. unfold event_filters. cbn [prop].
  destruct (k =? "with")%string; [ reflexivity | ].
  rewrite !lookup_bytes_no_filter. reflexivity.
Qed.

Lemma trigger_loop (props : list (string * JsVal)) (keys : list string) :
  forall (fs : Filters) (errs : list ParseError),
    for_each (trigger_event (VObj props)) keys fs errs
    = (Normal (collect_filters props keys fs), errs).
Proof.
  induction keys as [ | k rest IH ]; intros fs errs; [ reflexivity | ].
  cbn [for_each]. unfold collect_filters. cbn [fold_left].
  rewrite (bind_normal _ _ _ _ _ (trigger_event_total props fs k errs)).
  apply IH.
Qed.

Lemma parseTrigger_total (onConfig : JsVal) (errs : list ParseError) :
  onConfig <> VNull ->
  parseTrigger onConfig errs = (Normal (trigger_node onConfig), errs).
Proof.
  intro Hnull. unfold parseTrigger.
  destruct onConfig as [ | | b | x | s | elems | props | t | bytes | f ];
    try reflexivity.
  - congruence.
  - cbn [typeof isArray Object_keys Object_entries]. cbn -[for_each trigger_event].
    unfold bind, eval. rewrite trigger_loop. reflexivity.
  - cbn [typeof isArray Object_keys Object_entries].
    cbn -[for_each trigger_event own_entries].
    unfold bind, eval. rewrite trigger_loop_binary. reflexivity.
Qed.

Lemma null_free_on (raw : JsVal) : null_free raw = true -> prop raw "on" <> VNull.
Proof.
  unfold null_free. intros H Hnull. rewrite Hnull in H. discriminate H.
Qed.

Lemma null_free_jobs (raw : JsVal) :
  null_free raw = true ->
  forallb (fun entry => negb (nullish (snd entry)) && steps_total (snd entry))
    (job_entries raw) = true.
Proof.
  unfold null_free. intro H. apply andb_prop in H. apply H.
Qed.

(** On a document without [null] in the places the parser dereferences,
    [buildWorkflowAST] completes, and it appends to the [errors] array the
    findings in their order of detection, all of them and nothing else. *)
Lemma buildWorkflowAST_total (raw : JsVal) (filePath : option string)
    (errs : list ParseError) :
  nullish raw = false ->
  null_free raw = true ->
  buildWorkflowAST raw filePath errs
  = (Normal (workflow_node raw filePath (trigger_node (prop raw "on"))),
     errs ++ detected raw).
Proof.
  intros Hraw Hfree.
  pose proof (null_free_on raw Hfree) as Hon.
  pose proof (null_free_jobs raw Hfree) as Hjobs.
  unfold buildWorkflowAST, workflow_node, detected, on_check, jobs_check.
  rewrite !(get_total raw) by exact Hraw.
  cbv beta iota delta [bind eval].
  rewrite <- negb_andb.
  change (truthy (prop raw "jobs") && (typeof (prop raw "jobs") =? "object")%string)
    with (is_object (prop raw "jobs")).
  unfold job_entries in *.
  rewrite !is_object_shape. rewrite is_object_shape in Hjobs.
  destruct (truthy (prop raw "on"));
    destruct (prop raw "jobs") as [ | | b | x | s | elems | props | t | bytes | f ] eqn:Ejobs;
    cbv beta iota in Hjobs;
    cbn [Object_entries]; run_parser;
    rewrite (parseTrigger_total (prop raw "on") _ Hon);
    rewrite ?(jobs_loop _ _ _ Hjobs);
    cbn [app flat_map]; rewrite <- ?app_assoc, ?app_nil_r; reflexivity.
Qed.

Lemma parse_total (h : Host) (yamlContent : string) (filePath : option string)
    (raw : JsVal) :
  yaml_load h yamlContent = Normal raw ->
  is_object raw = true ->
  null_free raw = true ->
  parse h yamlContent filePath
  = Normal {| ast := Some (workflow_node raw filePath (trigger_node (prop raw "on")));
              errors := detected raw |}.
Proof.
  intros Hload Hobj Hfree. unfold parse. rewrite Hload.
  assert (Hraw : nullish raw = false).
  { apply truthy_not_nullish. unfold is_object in Hobj.
    apply andb_prop in Hobj. apply Hobj. }
  rewrite <- negb_andb. fold (is_object raw). rewrite Hobj. cbn [negb].
  rewrite (buildWorkflowAST_total raw filePath [] Hraw Hfree). reflexivity.
Qed.

(** ** The [errors] array only grows *)

Lemma appends_ret {A : Type} (a : A) : appends (ret a).
Proof. intro errs. exists []. cbn. now rewrite app_nil_r. Qed.

Lemma appends_eval {A : Type} (c : Completion A) : appends (eval c).
Proof. intro errs. exists []. cbn. now rewrite app_nil_r. Qed.

Lemma appends_push (e : ParseError) : appends (push e).
Proof. intro errs. exists [e]. reflexivity. Qed.

Lemma appends_bind {A B : Type} (m : Parser A) (k : A -> Parser B) :
  appends m -> (forall a, appends (k a)) -> appends (bind m k).
Proof.
  intros Hm Hk errs. unfold bind.
  destruct (Hm errs) as [added1 H1].
  destruct (m errs) as [[a | e] errs1]; cbn [snd] in H1; subst errs1.
  - destruct (Hk a (errs ++ added1)) as [added2 H2].
    exists (added1 ++ added2). rewrite H2. now rewrite app_assoc.
  - exists added1. reflexivity.
Qed.

Lemma appends_when (c : bool) (m : Parser unit) : appends m -> appends (when c m).
Proof. intro Hm. destruct c; [ exact Hm | apply appends_ret ]. Qed.

Lemma appends_for_each {A S : Type} (body : S -> A -> Parser S) (l : list A) :
  (forall acc x, appends (body acc x)) ->
  forall acc, appends (for_each body l acc).
Proof.
  intro Hbody. induction l as [ | x rest IH ]; intro acc; cbn [for_each].
  - apply appends_ret.
  - apply appends_bind; [ apply Hbody | exact IH ].
Qed.

Create HintDb parser.
#[local] Hint Resolve appends_ret appends_eval appends_push : parser.

Ltac appends_step :=
  match goal with
  | |- appends (bind _ _) => apply appends_bind; [ | intro ]
  | |- appends (when _ _) => apply appends_when
  | |- appends (for_each _ _ _) => apply appends_for_each; intros
  | |- appends (if ?c then _ else _) => destruct c
  | |- appends (match ?v with VArr _ => _ | _ => _ end) => destruct v
  | |- appends _ => solve [ auto with parser ]
  end.

Lemma appends_parseStep (stepConfig : JsVal) (jobId : string) (stepIndex : nat) :
  appends (parseStep stepConfig jobId stepIndex).
Proof. unfold parseStep. repeat appends_step. Qed.

#[local] Hint Resolve appends_parseStep : parser.

Lemma appends_parseJob (jobId : string) (jobConfig : JsVal) :
  appends (parseJob jobId jobConfig).
Proof. unfold parseJob, parseJob_step. repeat appends_step. Qed.

#[local] Hint Resolve appends_parseJob : parser.

Lemma appends_parseTrigger (onConfig : JsVal) : appends (parseTrigger onConfig).
Proof. unfold parseTrigger, trigger_event. repeat appends_step. Qed.

#[local] Hint Resolve appends_parseTrigger : parser.

Lemma push_then (e : ParseError) {B : Type} (k : unit -> Parser B)
    (errs : list ParseError) :
  appends (k tt) ->
  exists rest, snd (bind (push e) k errs) = errs ++ e :: rest.
Proof.
  intro Hk. rewrite bind_push. destruct (Hk (errs ++ [e])) as [added H].
  exists added. rewrite H. rewrite <- app_assoc. reflexivity.
Qed.

(** ** The check of [on] *)

(** C10: when the [on] value of a mapping is falsy ([false], [0], the empty
    string, and likewise when it is [null] or absent), [buildWorkflowAST]
    pushes "Missing required field 'on' (trigger configuration)" to the
    [errors] array before anything else, whether or not the key is there;
    and whenever [parse] then returns a workflow, that diagnostic is the
    first one of its result. *)
Theorem falsy_on_reported (props : list (string * JsVal)) (filePath : option string) :
  truthy (lookup "on" props) = false ->
  (forall errs,
      exists rest,
        snd (buildWorkflowAST (VObj props) filePath errs) = errs ++ missing_on :: rest)
  /\ (forall h yamlContent tree errs,
         yaml_load h yamlContent = Normal (VObj props) ->
         parse h yamlContent filePath = Normal {| ast := Some tree; errors := errs |} ->
         exists rest, errs = missing_on :: rest).
Proof.
  intro Hfalsy.
  assert (Hbuild : forall errs,
             exists rest,
               snd (buildWorkflowAST (VObj props) filePath errs)
               = errs ++ missing_on :: rest).
  { intro errs. unfold buildWorkflowAST. cbn [get prop]. rewrite bind_eval.
    rewrite Hfalsy. cbn [negb when].
    apply push_then. unfold buildWorkflowAST_job. repeat appends_step. }
  split; [ exact Hbuild | ].
  intros h yamlContent tree errs Hload Hparse.
  unfold parse in Hparse. rewrite Hload in Hparse.
  change (negb (truthy (VObj props))
          || negb (typeof (VObj props) =? "object")%string)
    with false in Hparse.
  cbv iota in Hparse.
  destruct (Hbuild []) as [rest Hrest].
  destruct (buildWorkflowAST (VObj props) filePath []) as [[tree' | e] errs'];
    cbn [snd] in Hrest.
  - injection Hparse as _ Herrs. exists rest. subst. reflexivity.
  - discriminate Hparse.
Qed.

Lemma falsy_on_reported_witness :
  (exists rest,
      snd (buildWorkflowAST (VObj [("on", VBool false); ("jobs", VObj [])]) None [])
      = [] ++ missing_on :: rest)
  /\ (exists tree rest,
         parse node (lines ["on: false"; "jobs: {}"]) None
         = Normal {| ast := Some tree; errors := missing_on :: rest |}).
Proof.
  destruct (falsy_on_reported [("on", VBool false); ("jobs", VObj [])] None eq_refl)
    as [Hbuild Hparse].
  split.
  - apply Hbuild.
  - pose (tree := workflow_node (VObj [("on", VBool false); ("jobs", VObj [])])
                    None (trigger_node (VBool false))).
    assert (Hp : parse node (lines ["on: false"; "jobs: {}"]) None
                 = Normal {| ast := Some tree; errors := [missing_on] |})
      by reflexivity.
    destruct (Hparse node (lines ["on: false"; "jobs: {}"]) tree [missing_on]
                eq_refl Hp) as [rest Hrest].
    exists tree, rest. rewrite <- Hrest. exact Hp.
Defined.

(** ** Triggers *)

(** C6: the bare string [e], the one-element sequence [[e]] and the mapping
    [{e: {}}] give the same trigger: its event list is exactly [[e]] and it
    has no filters; the [errors] array is left as it was. *)
Theorem trigger_spellings_agree (e : string) (errs : list ParseError) :
  let single := {| trigger_type := "trigger"; events := [VStr e];
                   branches := None; tags := None; paths := None |} in
  parseTrigger (VStr e) errs = (Normal single, errs)
  /\ parseTrigger (VArr [VStr e]) errs = (Normal single, errs)
  /\ parseTrigger (VObj [(e, VObj [])]) errs = (Normal single, errs).
Proof.
  cbv zeta. repeat split; try reflexivity.
  rewrite parseTrigger_total by discriminate.
  unfold trigger_node, collect_filters. cbn [map fst fold_left lookup].
  rewrite String.eqb_refl. reflexivity.
Qed.

(** An [on] value that is a number, a boolean or absent gives a trigger
    without events; nothing is pushed to the [errors] array. *)
Lemma parseTrigger_permissive (onConfig : JsVal) (errs : list ParseError) :
  typeof onConfig <> "string" ->
  typeof onConfig <> "object" ->
  parseTrigger onConfig errs
  = (Normal {| trigger_type := "trigger"; events := [];
               branches := None; tags := None; paths := None |}, errs).
Proof.
  intros Hs Ho.
  destruct onConfig as [ | | b | x | s | elems | props | t | bytes | f ];
    try reflexivity; cbn in Hs, Ho; congruence.
Qed.

(** C7, at its failing input: a [null] value of [on] passes the test
    [typeof onConfig === 'object'], [Object.keys(null)] throws, and [parse]
    answers the document [on:] with a null AST and the engine's message
    instead of a workflow with an empty event list. *)
Theorem parseTrigger_null_throws :
  (forall errs,
      parseTrigger VNull errs = (Throw (TypeError ObjectOfNullish), errs))
  /\ parse node (lines ["on:"; "jobs: {}"]) None
     = Normal {| ast := None;
                 errors := [ {| message := "YAML parse error: Cannot convert undefined or null to object";
                                severity := error |} ] |}.
Proof. split; reflexivity. Qed.

Lemma lookup_own (props : list (string * JsVal)) :
  NoDup (map fst props) ->
  forall k v, In (k, v) props -> lookup k props = v.
Proof.
  induction props as [ | [k0 v0] rest IH ]; intros Hnd k v Hin; [ contradiction | ].
  cbn [map fst] in Hnd. inversion Hnd as [ | k1 ks Hnotin Hrest ]; subst.
  cbn [lookup]. destruct Hin as [Heq | Hin].
  - injection Heq as -> ->. now rewrite String.eqb_refl.
  - destruct (String.eqb_spec k0 k) as [-> | Hne].
    + exfalso. apply Hnotin. apply (in_map fst) in Hin. exact Hin.
    + apply IH; assumption.
Qed.

Lemma collect_last (props l : list (string * JsVal)) :
  (forall k v, In (k, v) l -> lookup k props = v) ->
  forall fs,
    let merged := collect_filters props (map fst l) fs in
    f_branches merged = match last_filter "branches" l with
                        | Some f => Some f
                        | None => f_branches fs
                        end
    /\ f_tags merged = match last_filter "tags" l with
                       | Some f => Some f
                       | None => f_tags fs
                       end
    /\ f_paths merged = match last_filter "paths" l with
                        | Some f => Some f
                        | None => f_paths fs
                        end.
Proof.
  induction l as [ | [k v] rest IH ]; intros Hown fs.
  - cbn. auto.
  - cbv zeta. unfold collect_filters. cbn [map fst fold_left].
    rewrite (Hown k v (or_introl eq_refl)).
    assert (Hrest : forall k' v', In (k', v') rest -> lookup k' props = v').
    { intros k' v' Hin. apply Hown. right. exact Hin. }
    destruct (IH Hrest (event_filters fs v)) as [Hb [Ht Hp]].
    cbv zeta in Hb, Ht, Hp. unfold collect_filters in Hb, Ht, Hp.
    rewrite Hb, Ht, Hp. cbn [last_filter event_filters f_branches f_tags f_paths].
    destruct (last_filter "branches" rest), (last_filter "tags" rest),
      (last_filter "paths" rest); auto.
Qed.

(** C8: for a mapping-shaped [on], each of [branches], [tags] and [paths]
    is, independently of the other two, the value given by the last event
    in iteration order whose configuration is a mapping with a truthy value
    for that field (a bare scalar wrapped into a one-element list); events
    that give none leave the value collected so far, and the field stays
    undefined when no event gives one. *)
Theorem last_filter_wins (props : list (string * JsVal)) (errs : list ParseError) :
  NoDup (map fst props) ->
  parseTrigger (VObj props) errs
  = (Normal {| trigger_type := "trigger";
               events := map VStr (map fst props);
               branches := last_filter "branches" props;
               tags := last_filter "tags" props;
               paths := last_filter "paths" props |}, errs).
Proof.
  intro Hnd. rewrite parseTrigger_total by discriminate.
  unfold trigger_node. cbv zeta.
  destruct (collect_last props props (lookup_own props Hnd) no_filters)
    as [Hb [Ht Hp]].
  cbv zeta in Hb, Ht, Hp. rewrite Hb, Ht, Hp. cbn [no_filters f_branches f_tags f_paths].
  destruct (last_filter "branches" props), (last_filter "tags" props),
    (last_filter "paths" props); reflexivity.
Qed.

Lemma last_filter_wins_witness :
  parseTrigger
    (VObj [ ("push", VObj [ ("branches", VArr [VStr "main"]); ("tags", VStr "v*") ]);
            ("pull_request", VObj [ ("branches", VStr "develop") ]);
            ("workflow_dispatch", VNull) ]) []
  = (Normal {| trigger_type := "trigger";
               events := [VStr "push"; VStr "pull_request"; VStr "workflow_dispatch"];
               branches := Some [VStr "develop"];
               tags := Some [VStr "v*"];
               paths := None |}, []).
Proof.
  apply (last_filter_wins
           [ ("push", VObj [ ("branches", VArr [VStr "main"]); ("tags", VStr "v*") ]);
             ("pull_request", VObj [ ("branches", VStr "develop") ]);
             ("workflow_dispatch", VNull) ] []).
  repeat constructor; cbn; intuition discriminate.
Defined.

(** ** Whole documents *)

Lemma steps_with_run_pass (jobId : string) (stepConfigs : list (list (string * JsVal))) :
  Forall (fun cfg => truthy (lookup "run" cfg) = true) stepConfigs ->
  forall i,
    flat_map (step_check jobId)
      (combine (seq i (List.length (map VObj stepConfigs))) (map VObj stepConfigs))
    = [].
Proof.
  induction 1 as [ | cfg rest Hrun _ IH ]; intro i; [ reflexivity | ].
  cbn [map List.length seq combine flat_map].
  unfold step_check at 1. cbn [fst snd prop]. rewrite Hrun, orb_true_r.
  apply IH.
Qed.

Lemma mappings_not_nullish (cfgs : list (list (string * JsVal))) :
  forallb (fun s => negb (nullish s)) (map VObj cfgs) = true.
Proof. induction cfgs as [ | cfg rest IH ]; [ reflexivity | exact IH ]. Qed.

(** C4: a document made of a non-empty trigger string and one job with a
    truthy [runs-on] value and steps that each carry a non-empty [run]
    parses to a workflow with no diagnostics: its events are the trigger
    alone, and the job stored under its identifier has the given runner and
    one step per configured step, with that step's [run].  In particular the document [on: push]
    with job [test] on [ubuntu-latest] and the step [run: echo test] gives
    events [["push"]], job [test] with runner ["ubuntu-latest"], one step
    with run ["echo test"], and no diagnostics. *)
Theorem minimal_document_parses (h : Host) (yamlContent : string)
    (filePath : option string) :
  (forall trigger jobId runner stepConfigs,
      yaml_load h yamlContent
      = Normal (minimal_document trigger jobId runner stepConfigs) ->
      trigger <> "" ->
      truthy runner = true ->
      stepConfigs <> [] ->
      Forall (fun cfg => truthy (lookup "run" cfg) = true) stepConfigs ->
      exists tree job,
        parse h yamlContent filePath = Normal {| ast := Some tree; errors := [] |}
        /\ events (on tree) = [VStr trigger]
        /\ jobs tree = obj_set [] jobId job
        /\ runsOn job = runner
        /\ map run (steps job) = map (lookup "run") stepConfigs)
  /\ (yaml_load h yamlContent = Normal minimal_tree ->
      parse h yamlContent filePath
      = Normal {| ast := Some (minimal_ast filePath); errors := [] |}).
Proof.
  split.
  - intros trigger jobId runner stepConfigs Hload Htrigger Hrunner _ Hsteps.
    set (raw := minimal_document trigger jobId runner stepConfigs) in *.
    set (cfg := VObj [ ("runs-on", runner); ("steps", VArr (map VObj stepConfigs)) ]).
    assert (Hentries : job_entries raw = [(jobId, cfg)]) by reflexivity.
    assert (Hfree : null_free raw = true).
    { unfold null_free. rewrite Hentries.
      change (prop raw "on") with (VStr trigger).
      cbn [forallb snd andb]. unfold steps_total.
      change (prop cfg "steps") with (VArr (map VObj stepConfigs)).
      cbv iota. rewrite mappings_not_nullish. reflexivity. }
    assert (Hnone : detected raw = []).
    { unfold detected, on_check, jobs_check. rewrite Hentries.
      change (prop raw "on") with (VStr trigger).
      change (is_object (prop raw "jobs")) with true.
      cbn [truthy]. apply String.eqb_neq in Htrigger. rewrite Htrigger.
      cbn [negb app flat_map]. unfold job_check, steps_check. cbn [fst snd].
      change (prop cfg "runs-on") with runner.
      change (prop cfg "steps") with (VArr (map VObj stepConfigs)).
      rewrite Hrunner. unfold with_index.
      rewrite (steps_with_run_pass jobId stepConfigs Hsteps 0). reflexivity. }
    rewrite (parse_total h yamlContent filePath raw Hload eq_refl Hfree).
    rewrite Hnone.
    eexists. eexists. split; [ reflexivity | ].
    unfold workflow_node. rewrite Hentries. unfold job_nodes.
    cbn [on jobs fold_left fst snd].
    change (prop raw "on") with (VStr trigger).
    repeat split.
    unfold job_node. cbn [steps].
    change (prop cfg "steps") with (VArr (map VObj stepConfigs)).
    cbv iota. rewrite !map_map. reflexivity.
  - intro Hload.
    rewrite (parse_total h yamlContent filePath minimal_tree Hload eq_refl eq_refl).
    reflexivity.
Qed.

Lemma minimal_document_parses_witness :
  parse node minimal_yaml (Some ".github/workflows/ci.yml")
  = Normal {| ast := Some (minimal_ast (Some ".github/workflows/ci.yml"));
              errors := [] |}
  /\ exists tree job,
       parse node minimal_yaml None = Normal {| ast := Some tree; errors := [] |}
       /\ events (on tree) = [VStr "push"]
       /\ jobs tree = [("test", job)]
       /\ runsOn job = VStr "ubuntu-latest"
       /\ map run (steps job) = [VStr "echo test"].
Proof.
  split.
  - apply (minimal_document_parses node minimal_yaml
             (Some ".github/workflows/ci.yml")).
    reflexivity.
  - apply (proj1 (minimal_document_parses node minimal_yaml None)
             "push" "test" (VStr "ubuntu-latest") [ [("run", VStr "echo test")] ]).
    + reflexivity.
    + discriminate.
    + reflexivity.
    + discriminate.
    + repeat constructor.
Defined.

(** A document whose [jobs] value is missing, [null], a boolean, a number
    or a string, and whose [on] value is not [null]: the one finding about
    [jobs] follows the check of [on], and the workflow comes back with no
    jobs. *)
Lemma invalid_jobs_reported (raw : JsVal) (filePath : option string)
    (errs : list ParseError) :
  nullish raw = false ->
  prop raw "on" <> VNull ->
  is_object (prop raw "jobs") = false ->
  exists tree,
    buildWorkflowAST raw filePath errs
    = (Normal tree, errs ++ on_check raw ++ [invalid_jobs])
    /\ jobs tree = [].
Proof.
  intros Hraw Hon Hjobs.
  assert (Hentries : job_entries raw = []).
  { unfold job_entries. rewrite Hjobs. reflexivity. }
  assert (Hfree : null_free raw = true).
  { unfold null_free. rewrite Hentries.
    destruct (prop raw "on"); try reflexivity. congruence. }
  rewrite (buildWorkflowAST_total raw filePath errs Hraw Hfree).
  eexists. split.
  - unfold detected, jobs_check. rewrite Hjobs, Hentries. reflexivity.
  - unfold workflow_node. cbn [jobs]. rewrite Hentries. reflexivity.
Qed.

(** C9, at its failing inputs: a sequence under [jobs] is truthy and its
    [typeof] is ["object"], so the check of [jobs] lets it through.  The
    document [jobs: []] comes back with no diagnostic at all, and a
    one-element sequence is read as a job named ["0"], with the findings of
    that job and a [jobs] record that is not empty. *)
Theorem jobs_sequence_accepted :
  (exists tree,
      parse node (lines ["on: push"; "jobs: []"]) None
      = Normal {| ast := Some tree; errors := [] |})
  /\ (exists tree job,
         parse node (lines ["on: push"; "jobs:"; "  - steps: []"]) None
         = Normal {| ast := Some tree; errors := [missing_runs_on "0"] |}
         /\ jobs tree = [("0", job)]).
Proof.
  split.
  - eexists. reflexivity.
  - eexists. eexists. split; reflexivity.
Qed.

(** C5, at its failing input: in the document [jobs: {build: null}] the
    check of [on] pushes its finding, then [parseJob] reads ['runs-on'] from
    [null] and throws; the [catch] clause of [parse] answers with a fresh
    list that holds the engine's message only, and the finding about [on]
    is lost. *)
Theorem null_job_drops_diagnostics :
  buildWorkflowAST (VObj [("jobs", VObj [("build", VNull)])]) None []
  = (Throw (TypeError (ReadOfNullish VNull "runs-on")), [missing_on])
  /\ parse node (lines ["jobs:"; "  build:"]) None
     = Normal {| ast := None;
                 errors := [ {| message := "YAML parse error: Cannot read properties of null (reading 'runs-on')";
                                severity := error |} ] |}.
Proof. split; reflexivity. Qed.

(** * Further properties of the parser *)

(** ** Where the construction functions throw *)

Lemma parseStep_throws (stepConfig : JsVal) (jobId : string) (stepIndex : nat)
    (errs : list ParseError) :
  nullish stepConfig = true ->
  parseStep stepConfig jobId stepIndex errs
  = (Throw (TypeError (ReadOfNullish stepConfig "uses")), errs).
Proof. destruct stepConfig; intro H; try discriminate H; reflexivity. Qed.

Lemma steps_loop_throws (jobId : string) (elems : list JsVal) :
  forallb (fun s => negb (nullish s)) elems = false ->
  forall (i : nat) (acc : list StepAST) (errs : list ParseError),
  exists e errs',
    for_each (parseJob_step jobId) (combine (seq i (List.length elems)) elems) acc errs
    = (Throw e, errs').
Proof.
  induction elems as [ | s rest IH ]; intros Hsome i acc errs;
    [ discriminate Hsome | ].
  cbn [forallb] in Hsome.
  cbn [List.length seq combine for_each].
  unfold parseJob_step at 1. cbn [fst snd].
  destruct (nullish s) eqn:Hs.
  - rewrite (bind_throw _ _ errs errs (TypeError (ReadOfNullish s "uses"))).
    + eexists. eexists. reflexivity.
    + apply bind_throw. apply parseStep_throws. exact Hs.
  - cbn [negb andb] in Hsome.
    run_parser. rewrite (parseStep_total s jobId i errs Hs).
    apply IH. exact Hsome.
Qed.

Lemma parseJob_throws (jobId : string) (jobConfig : JsVal) (errs : list ParseError) :
  negb (nullish jobConfig) && steps_total jobConfig = false ->
  exists e errs', parseJob jobId jobConfig errs = (Throw e, errs').
Proof.
  intro Hbad. destruct (nullish jobConfig) eqn:Hn.
  - destruct jobConfig; try discriminate Hn; eexists; eexists; reflexivity.
  - cbn [negb andb] in Hbad. unfold steps_total in Hbad. unfold parseJob.
    rewrite !(get_total jobConfig) by exact Hn.
    destruct (prop jobConfig "steps") as [ | | b | x | s | elems | props | t | bytes | f ];
      try discriminate Hbad.
    destruct (steps_loop_throws jobId elems Hbad 0 []
                (if truthy (prop jobConfig "runs-on") then errs
                 else errs ++ [missing_runs_on jobId]))
      as [e [errs' Hloop]].
    exists e, errs'.
    run_parser. unfold with_index. unfold missing_runs_on in Hloop.
    destruct (truthy (prop jobConfig "runs-on")); cbv beta iota;
      rewrite Hloop; reflexivity.
Qed.

Lemma jobs_loop_throws (entries : list (string * JsVal)) :
  forallb (fun entry => negb (nullish (snd entry)) && steps_total (snd entry))
    entries = false ->
  forall (acc : list (string * JobAST)) (errs : list ParseError),
  exists e errs', for_each buildWorkflowAST_job entries acc errs = (Throw e, errs').
Proof.
  induction entries as [ | [jobId jobConfig] rest IH ]; intros Hsome acc errs;
    [ discriminate Hsome | ].
  cbn [forallb snd] in Hsome. cbn [for_each].
  unfold buildWorkflowAST_job at 1. cbn [fst snd].
  destruct (negb (nullish jobConfig) && steps_total jobConfig) eqn:Hjob.
  - apply andb_prop in Hjob. destruct Hjob as [Hn Hsteps].
    apply negb_true_iff in Hn. cbn [andb] in Hsome.
    run_parser. rewrite (parseJob_total jobId jobConfig errs Hn Hsteps).
    apply IH. exact Hsome.
  - destruct (parseJob_throws jobId jobConfig errs Hjob) as [e [errs' Hthrow]].
    exists e, errs'.
    apply bind_throw. apply bind_throw. exact Hthrow.
Qed.

Lemma parseTrigger_null (errs : list ParseError) :
  parseTrigger VNull errs = (Throw (TypeError ObjectOfNullish), errs).
Proof. reflexivity. Qed.

Lemma buildWorkflowAST_throws (raw : JsVal) (filePath : option string)
    (errs : list ParseError) :
  nullish raw = false ->
  null_free raw = false ->
  exists e errs', buildWorkflowAST raw filePath errs = (Throw e, errs').
Proof.
  intros Hraw Hbad. unfold null_free in Hbad.
  unfold buildWorkflowAST.
  rewrite !(get_total raw) by exact Hraw.
  cbv beta iota delta [bind eval].
  rewrite <- negb_andb.
  change (truthy (prop raw "jobs") && (typeof (prop raw "jobs") =? "object")%string)
    with (is_object (prop raw "jobs")).
  rewrite !is_object_shape.
  destruct (prop raw "on") as [ | | b | x | s | elems | props | t | bytes | f ] eqn:Eon;
    cbn [andb] in Hbad.
  2: { cbn [truthy].
       destruct (prop raw "jobs"); run_parser; rewrite parseTrigger_null;
         eexists; eexists; reflexivity. }
  all: unfold job_entries in Hbad; rewrite is_object_shape in Hbad;
    destruct (prop raw "jobs") as [ | | b' | x' | s' | elems' | props' | t' | bytes' | f' ] eqn:Ejobs;
    cbv beta iota in Hbad;
    try (cbn [own_entries forallb] in Hbad; discriminate Hbad);
    cbn [Object_entries];
    match goal with
    | |- context [ truthy ?v ] => destruct (truthy v)
    end;
    run_parser;
    rewrite parseTrigger_total by discriminate;
    match goal with
    | |- context [ for_each buildWorkflowAST_job ?l ?a ?x ] =>
        destruct (jobs_loop_throws l Hbad a x) as [e [errs' Hloop]];
        rewrite Hloop
    end;
    eexists; eexists; reflexivity.
Qed.

(** ** The results of [parse] *)

Lemma parse_not_object (h : Host) (yamlContent : string) (filePath : option string)
    (raw : JsVal) :
  yaml_load h yamlContent = Normal raw ->
  is_object raw = false ->
  parse h yamlContent filePath = Normal {| ast := None; errors := [invalid_yaml] |}.
Proof.
  intros Hload Hobj. unfold parse. rewrite Hload.
  rewrite <- negb_andb. fold (is_object raw). rewrite Hobj. reflexivity.
Qed.

Lemma parse_caught (h : Host) (yamlContent : string) (filePath : option string)
    (raw : JsVal) :
  yaml_load h yamlContent = Normal raw ->
  is_object raw = true ->
  null_free raw = false ->
  exists e, parse h yamlContent filePath = Normal (parse_catch h e).
Proof.
  intros Hload Hobj Hbad. unfold parse. rewrite Hload.
  rewrite <- negb_andb. fold (is_object raw). rewrite Hobj. cbn [negb].
  assert (Hraw : nullish raw = false).
  { apply truthy_not_nullish. unfold is_object in Hobj.
    apply andb_prop in Hobj. apply Hobj. }
  destruct (buildWorkflowAST_throws raw filePath [] Hraw Hbad) as [e [errs' Hthrow]].
  exists e. rewrite Hthrow. reflexivity.
Qed.

Lemma parse_workflow_inv (h : Host) (yamlContent : string) (filePath : option string)
    (raw : JsVal) (tree : WorkflowAST) (errs : list ParseError) :
  yaml_load h yamlContent = Normal raw ->
  parse h yamlContent filePath = Normal {| ast := Some tree; errors := errs |} ->
  is_object raw = true /\ null_free raw = true.
Proof.
  intros Hload Hparse.
  destruct (is_object raw) eqn:Hobj.
  - destruct (null_free raw) eqn:Hfree; [ split; reflexivity | ].
    destruct (parse_caught h yamlContent filePath raw Hload Hobj Hfree)
      as [e He].
    rewrite He in Hparse. discriminate Hparse.
  - rewrite (parse_not_object h yamlContent filePath raw Hload Hobj) in Hparse.
    discriminate Hparse.
Qed.

Lemma parse_completes (h : Host) (yamlContent : string) (filePath : option string) :
  exists result, parse h yamlContent filePath = Normal result.
Proof.
  unfold parse.
  destruct (yaml_load h yamlContent) as [raw | e]; [ | eexists; reflexivity ].
  destruct (negb (truthy raw) || negb (typeof raw =? "object")%string);
    [ eexists; reflexivity | ].
  destruct (buildWorkflowAST raw filePath []) as [[tree | e] errs];
    eexists; reflexivity.
Qed.

(** X1: every call of [parse] ends in one of two shapes: a workflow with
    its diagnostics, or no workflow and exactly one diagnostic, of error
    severity.  That covers a text the decoder rejects, a decoded value
    that is not an object, and an exception inside the construction. *)
Theorem parse_result_shapes (h : Host) (yamlContent : string)
    (filePath : option string) :
  (exists tree errs,
      parse h yamlContent filePath = Normal {| ast := Some tree; errors := errs |})
  \/ (exists d,
         parse h yamlContent filePath = Normal {| ast := None; errors := [d] |}
         /\ severity d = error).
Proof.
  destruct (yaml_load h yamlContent) as [raw | e] eqn:Hload.
  - destruct (is_object raw) eqn:Hobj.
    + destruct (null_free raw) eqn:Hfree.
      * left. eexists. eexists.
        apply (parse_total h yamlContent filePath raw Hload Hobj Hfree).
      * right.
        destruct (parse_caught h yamlContent filePath raw Hload Hobj Hfree)
          as [e He].
        eexists. split; [ exact He | reflexivity ].
    + right. exists invalid_yaml. split; [ | reflexivity ].
      apply (parse_not_object h yamlContent filePath raw Hload Hobj).
  - right. eexists. split.
    + unfold parse. rewrite Hload. reflexivity.
    + reflexivity.
Qed.

(** X2: for a decoded document, [parse] returns a workflow exactly when the
    document passes the test of [parse] (it is not falsy and [typeof] calls
    it an object: a mapping, a sequence, and also the date of a timestamp
    or the typed array of a binary scalar), its [on] is not [null], no
    entry visited under [jobs] is [null] and no element of a [steps]
    sequence is [null]. *)
Theorem parse_returns_workflow_iff (h : Host) (yamlContent : string)
    (filePath : option string) (raw : JsVal) :
  yaml_load h yamlContent = Normal raw ->
  (exists tree errs,
      parse h yamlContent filePath = Normal {| ast := Some tree; errors := errs |})
  <-> is_object raw && null_free raw = true.
Proof.
  intro Hload. split.
  - intros [tree [errs Hparse]].
    destruct (parse_workflow_inv h yamlContent filePath raw tree errs Hload Hparse)
      as [Hobj Hfree].
    rewrite Hobj, Hfree. reflexivity.
  - intro Hok. apply andb_prop in Hok. destruct Hok as [Hobj Hfree].
    eexists. eexists.
    apply (parse_total h yamlContent filePath raw Hload Hobj Hfree).
Qed.

Lemma parse_returns_workflow_iff_witness :
  (exists tree errs,
      parse node minimal_yaml None = Normal {| ast := Some tree; errors := errs |})
  <-> is_object minimal_tree && null_free minimal_tree = true.
Proof.
  apply (parse_returns_workflow_iff node minimal_yaml None minimal_tree).
  reflexivity.
Defined.

(** X3: whenever [parse] returns a workflow for a decoded document, the
    diagnostics beside it are the findings in their order of detection,
    none missing and none added, and the workflow is the one built field
    by field from the document. *)
Theorem parse_workflow_exact (h : Host) (yamlContent : string)
    (filePath : option string) (raw : JsVal) (tree : WorkflowAST)
    (errs : list ParseError) :
  yaml_load h yamlContent = Normal raw ->
  parse h yamlContent filePath = Normal {| ast := Some tree; errors := errs |} ->
  errs = detected raw
  /\ tree = workflow_node raw filePath (trigger_node (prop raw "on")).
Proof.
  intros Hload Hparse.
  destruct (parse_workflow_inv h yamlContent filePath raw tree errs Hload Hparse)
    as [Hobj Hfree].
  rewrite (parse_total h yamlContent filePath raw Hload Hobj Hfree) in Hparse.
  injection Hparse as Htree Herrs. split; congruence.
Qed.

Lemma parse_workflow_exact_witness :
  exists tree errs,
    parse node (lines ["on: push"; "jobs:"; "  - steps: []"]) None
    = Normal {| ast := Some tree; errors := errs |}
    /\ errs = [missing_runs_on "0"]
    /\ map fst (jobs tree) = ["0"].
Proof.
  eexists. eexists. split; [ reflexivity | ].
  destruct (parse_workflow_exact node (lines ["on: push"; "jobs:"; "  - steps: []"])
              None
              (VObj [("on", VStr "push"); ("jobs", VArr [VObj [("steps", VArr [])]])])
              _ _ eq_refl eq_refl) as [Herrs Htree].
  split; reflexivity.
Defined.

(** ** Severities, and the strict entry point over [parse] *)

Lemma detected_errors (raw : JsVal) :
  Forall (fun d => severity d = error) (detected raw).
Proof.
  unfold detected, on_check, jobs_check.
  apply Forall_app; split; [ | apply Forall_app; split ].
  - destruct (truthy (prop raw "on")); repeat constructor.
  - destruct (is_object (prop raw "jobs")); repeat constructor.
  - apply Forall_forall. intros d Hd.
    apply in_flat_map in Hd. destruct Hd as [[jobId jobConfig] [_ Hd]].
    unfold job_check in Hd. cbn [fst snd] in Hd.
    apply in_app_or in Hd. destruct Hd as [Hd | Hd].
    + destruct (truthy (prop jobConfig "runs-on")); [ contradiction | ].
      destruct Hd as [<- | []]. reflexivity.
    + unfold steps_check in Hd.
      destruct (prop jobConfig "steps") as [ | | b | x | s | elems | props | t | bytes | f ].
      6: { apply in_flat_map in Hd. destruct Hd as [[i stepConfig] [_ Hd]].
           unfold step_check in Hd.
           destruct (truthy _ || truthy _); [ contradiction | ].
           destruct Hd as [<- | []]. reflexivity. }
      all: destruct (truthy _); [ | contradiction ];
        destruct Hd as [<- | []]; reflexivity.
Qed.

Lemma parse_emits_errors_only_aux (h : Host) (yamlContent : string)
    (filePath : option string) (result : ParseResult) :
  parse h yamlContent filePath = Normal result ->
  Forall (fun d => severity d = error) (errors result).
Proof.
  intro Hparse.
  destruct (yaml_load h yamlContent) as [raw | e] eqn:Hload.
  - destruct (is_object raw) eqn:Hobj.
    + destruct (null_free raw) eqn:Hfree.
      * rewrite (parse_total h yamlContent filePath raw Hload Hobj Hfree) in Hparse.
        injection Hparse as <-. apply detected_errors.
      * destruct (parse_caught h yamlContent filePath raw Hload Hobj Hfree)
          as [e He].
        rewrite He in Hparse. injection Hparse as <-. repeat constructor.
    + rewrite (parse_not_object h yamlContent filePath raw Hload Hobj) in Hparse.
      injection Hparse as <-. repeat constructor.
  - unfold parse in Hparse. rewrite Hload in Hparse.
    injection Hparse as <-. repeat constructor.
Qed.

(** X4: no call of [parse] returns a diagnostic of warning severity: every
    diagnostic in every result has severity [error]. *)
Theorem parse_emits_errors_only (h : Host) (yamlContent : string)
    (filePath : option string) (result : ParseResult) :
  parse h yamlContent filePath = Normal result ->
  forall d, In d (errors result) -> severity d = error.
Proof.
  intros Hparse. apply Forall_forall.
  apply (parse_emits_errors_only_aux h yamlContent filePath result Hparse).
Qed.

Lemma parse_emits_errors_only_witness :
  parse node "[]" None
  = Normal {| ast := Some (workflow_node (VArr []) None (trigger_node VUndefined));
              errors := [missing_on; invalid_jobs] |}
  /\ severity invalid_jobs = error.
Proof.
  split; [ reflexivity | ].
  apply (parse_emits_errors_only node "[]" None
           {| ast := Some (workflow_node (VArr []) None (trigger_node VUndefined));
              errors := [missing_on; invalid_jobs] |}).
  - reflexivity.
  - cbn. auto.
Defined.

Lemma filter_all_errors (errs : list ParseError) :
  Forall (fun d => severity d = error) errs -> filter is_error errs = errs.
Proof.
  induction 1 as [ | d rest Hd _ IH ]; [ reflexivity | ].
  cbn [filter]. unfold is_error at 1. rewrite Hd, IH. reflexivity.
Qed.

Lemma parseWorkflow_normal (h : Host) (yamlContent : string)
    (filePath : option string) (tree : WorkflowAST) :
  parseWorkflow h yamlContent filePath = Normal tree
  <-> parse h yamlContent filePath = Normal {| ast := Some tree; errors := [] |}.
Proof.
  unfold parseWorkflow.
  destruct (parse_completes h yamlContent filePath) as [[tree0 errs] Hparse].
  pose proof (parse_emits_errors_only_aux h yamlContent filePath _ Hparse) as Hsev.
  rewrite Hparse. unfold parseWorkflow_result. cbn [ast errors] in *.
  rewrite (filter_all_errors errs Hsev).
  destruct tree0 as [tree0 | ]; destruct errs as [ | d rest ]; cbn;
    split; intro H; try discriminate H; congruence.
Qed.

(** X5: the strict entry point returns a workflow exactly when [parse]
    returns that workflow with no diagnostic at all. *)
Theorem parseWorkflow_returns_iff_clean (h : Host) (yamlContent : string)
    (filePath : option string) (tree : WorkflowAST) :
  parseWorkflow h yamlContent filePath = Normal tree
  <-> parse h yamlContent filePath = Normal {| ast := Some tree; errors := [] |}.
Proof. apply parseWorkflow_normal. Qed.

(** X6: when [parse] returns any diagnostic, the strict entry point throws
    an [Error] whose message is the heading for the result followed by the
    messages of all the diagnostics, one per line; none is filtered out. *)
Theorem parseWorkflow_throws_all_messages (h : Host) (yamlContent : string)
    (filePath : option string) (result : ParseResult) :
  parse h yamlContent filePath = Normal result ->
  errors result <> [] ->
  parseWorkflow h yamlContent filePath
  = Throw (Error (failure_heading result ++ newline
                  ++ String.concat newline (map message (errors result)))%string).
Proof.
  intros Hparse Hsome.
  pose proof (parse_emits_errors_only_aux h yamlContent filePath _ Hparse) as Hsev.
  unfold parseWorkflow. rewrite Hparse.
  unfold parseWorkflow_result, failure_heading, join_messages.
  rewrite (filter_all_errors (errors result) Hsev).
  destruct (ast result) as [tree | ]; [ | reflexivity ].
  destruct (errors result) as [ | d rest ]; [ congruence | reflexivity ].
Qed.

Lemma parseWorkflow_throws_all_messages_witness :
  parseWorkflow node "[]" None
  = Throw (Error ("Workflow has critical errors:" ++ newline
                  ++ "Missing required field 'on' (trigger configuration)" ++ newline
                  ++ "Missing or invalid 'jobs' field")%string).
Proof.
  apply (parseWorkflow_throws_all_messages node "[]" None
           {| ast := Some (workflow_node (VArr []) None (trigger_node VUndefined));
              errors := [missing_on; invalid_jobs] |}).
  - reflexivity.
  - discriminate.
Defined.

(** ** The file path *)

Lemma buildWorkflowAST_file (raw : JsVal) (filePath1 filePath2 : option string)
    (errs : list ParseError) :
  buildWorkflowAST raw filePath2 errs
  = match buildWorkflowAST raw filePath1 errs with
    | (Normal tree, errs') => (Normal (with_file filePath2 tree), errs')
    | (Throw e, errs') => (Throw e, errs')
    end.
Proof.
  unfold buildWorkflowAST, bind, ret. cbv beta iota.
  repeat match goal with
         | |- context [ let (_, _) := ?m ?e in _ ] =>
             destruct (m e) as [[? | ?] ?]; cbv beta iota
         end;
    reflexivity.
Qed.

(** X7: the [filePath] argument reaches the location of the returned
    workflow and nothing else: with another path [parse] returns the same
    diagnostics and the same workflow up to the file of its location. *)
Theorem parse_file_only_in_location (h : Host) (yamlContent : string)
    (filePath1 filePath2 : option string) :
  exists result,
    parse h yamlContent filePath1 = Normal result
    /\ parse h yamlContent filePath2
       = Normal {| ast := option_map (with_file filePath2) (ast result);
                   errors := errors result |}.
Proof.
  unfold parse.
  destruct (yaml_load h yamlContent) as [raw | e]; [ | eexists; split; reflexivity ].
  destruct (negb (truthy raw) || negb (typeof raw =? "object")%string);
    [ eexists; split; reflexivity | ].
  rewrite (buildWorkflowAST_file raw filePath1 filePath2 []).
  destruct (buildWorkflowAST raw filePath1 []) as [[tree | e] errs];
    eexists; split; reflexivity.
Qed.

(** ** The [errors] array during construction *)

(** X8: [parseTrigger] never touches the [errors] array, whatever the shape
    of [on] and also when it throws. *)
Theorem parseTrigger_keeps_errors (onConfig : JsVal) (errs : list ParseError) :
  snd (parseTrigger onConfig errs) = errs.
Proof.
  destruct onConfig as [ | | b | x | s | elems | props | t | bytes | f ]; try reflexivity;
    rewrite parseTrigger_total by discriminate; reflexivity.
Qed.

(** X9: [buildWorkflowAST] only adds to the end of the [errors] array: what
    the array held before the call is still its prefix afterwards, whether
    the construction completes or throws. *)
Theorem buildWorkflowAST_keeps_prefix (raw : JsVal) (filePath : option string)
    (errs : list ParseError) :
  exists added, snd (buildWorkflowAST raw filePath errs) = errs ++ added.
Proof.
  revert errs. change (appends (buildWorkflowAST raw filePath)).
  unfold buildWorkflowAST, buildWorkflowAST_job. repeat appends_step.
Qed.

(** ** Jobs and steps *)

Lemma put_fresh {A : Type} (obj : list (string * A)) (k : string) (x : A) :
  ~ In k (map fst obj) -> put obj k x = obj ++ [(k, x)].
Proof.
  induction obj as [ | [k' y] rest IH ]; intro Hfresh; [ reflexivity | ].
  cbn [put map fst In] in *.
  destruct (String.eqb_spec k' k) as [-> | Hne].
  - exfalso. apply Hfresh. left. reflexivity.
  - rewrite IH; [ reflexivity | ]. intro Hin. apply Hfresh. right. exact Hin.
Qed.

Lemma job_nodes_fresh (entries : list (string * JsVal)) :
  ~ In "__proto__" (map fst entries) ->
  forall acc,
    NoDup (map fst acc ++ map fst entries) ->
    job_nodes entries acc
    = acc ++ map (fun entry => (fst entry, job_node (fst entry) (snd entry))) entries.
Proof.
  induction entries as [ | [k cfg] rest IH ]; intros Hproto acc Hnd.
  - cbn. now rewrite app_nil_r.
  - cbn [map fst snd In] in *. unfold job_nodes. cbn [fold_left fst snd].
    fold (job_nodes rest (obj_set acc k (job_node k cfg))).
    unfold obj_set.
    destruct (String.eqb_spec k "__proto__") as [-> | _];
      [ exfalso; apply Hproto; left; reflexivity | ].
    rewrite put_fresh.
    + rewrite IH.
      * rewrite <- app_assoc. reflexivity.
      * intro Hin. apply Hproto. right. exact Hin.
      * rewrite map_app, <- app_assoc. exact Hnd.
    + apply NoDup_remove_2 in Hnd. intro Hin. apply Hnd.
      apply in_or_app. left. exact Hin.
Qed.

(** X10: when [parse] returns a workflow and the keys of the job entries
    are distinct and none is ["__proto__"], the [jobs] record lists the
    jobs in the order in which [Object.entries] enumerates the decoded
    entries (which for integer-like keys is not the order of the text),
    each under its key and built from its own configuration. *)
Theorem jobs_keep_entry_order (h : Host) (yamlContent : string)
    (filePath : option string) (raw : JsVal) (tree : WorkflowAST)
    (errs : list ParseError) :
  yaml_load h yamlContent = Normal raw ->
  parse h yamlContent filePath = Normal {| ast := Some tree; errors := errs |} ->
  NoDup (map fst (job_entries raw)) ->
  ~ In "__proto__" (map fst (job_entries raw)) ->
  jobs tree
  = map (fun entry => (fst entry, job_node (fst entry) (snd entry))) (job_entries raw).
Proof.
  intros Hload Hparse Hnd Hproto.
  destruct (parse_workflow_inv h yamlContent filePath raw tree errs Hload Hparse)
    as [Hobj Hfree].
  rewrite (parse_total h yamlContent filePath raw Hload Hobj Hfree) in Hparse.
  injection Hparse as <- _. unfold workflow_node. cbn [jobs].
  apply (job_nodes_fresh (job_entries raw) Hproto []). exact Hnd.
Qed.

Lemma put_keeps {A : Type} (Q : string * A -> Prop) (obj : list (string * A))
    (k : string) (x : A) :
  Forall Q obj -> Q (k, x) -> Forall Q (put obj k x).
Proof.
  intros Hobj Hx. induction Hobj as [ | [k' y] rest Hy Hrest IH ]; cbn [put].
  - repeat constructor. exact Hx.
  - destruct (String.eqb_spec k' k) as [-> | _].
    + constructor; assumption.
    + constructor; assumption.
Qed.

Lemma job_nodes_ids (entries : list (string * JsVal)) :
  forall acc,
    Forall (fun kj => job_id (snd kj) = fst kj) acc ->
    Forall (fun kj => job_id (snd kj) = fst kj) (job_nodes entries acc).
Proof.
  induction entries as [ | [k cfg] rest IH ]; intros acc Hacc; [ exact Hacc | ].
  unfold job_nodes. cbn [fold_left fst snd].
  apply IH. unfold obj_set.
  destruct (k =? "__proto__")%string; [ exact Hacc | ].
  apply put_keeps; [ exact Hacc | reflexivity ].
Qed.

(** X11: in every workflow [parse] returns, each job sits in the [jobs]
    record under its own identifier. *)
Theorem job_ids_match_keys (h : Host) (yamlContent : string)
    (filePath : option string) (raw : JsVal) (tree : WorkflowAST)
    (errs : list ParseError) :
  yaml_load h yamlContent = Normal raw ->
  parse h yamlContent filePath = Normal {| ast := Some tree; errors := errs |} ->
  forall k job, In (k, job) (jobs tree) -> job_id job = k.
Proof.
  intros Hload Hparse k job Hin.
  destruct (parse_workflow_inv h yamlContent filePath raw tree errs Hload Hparse)
    as [Hobj Hfree].
  rewrite (parse_total h yamlContent filePath raw Hload Hobj Hfree) in Hparse.
  injection Hparse as <- _. unfold workflow_node in Hin. cbn [jobs] in Hin.
  pose proof (job_nodes_ids (job_entries raw) [] (Forall_nil _)) as Hall.
  rewrite Forall_forall in Hall. apply (Hall (k, job) Hin).
Qed.

Lemma jobs_keep_entry_order_witness :
  exists tree errs,
    parse node minimal_yaml None = Normal {| ast := Some tree; errors := errs |}
    /\ map fst (jobs tree) = ["test"].
Proof.
  eexists. eexists. split; [ reflexivity | ].
  rewrite (jobs_keep_entry_order node minimal_yaml None minimal_tree _ _
             eq_refl eq_refl).
  - reflexivity.
  - repeat constructor. cbn. intuition.
  - cbn. intuition discriminate.
Defined.

Lemma job_ids_match_keys_witness :
  job_id (job_node "test"
            (VObj [ ("runs-on", VStr "ubuntu-latest");
                    ("steps", VArr [ VObj [ ("run", VStr "echo test") ] ]) ]))
  = "test".
Proof.
  apply (job_ids_match_keys node minimal_yaml None minimal_tree
           (minimal_ast None) [] eq_refl eq_refl).
  cbn. left. reflexivity.
Defined.

(** X12: a step that is not [null] is always emitted, with its fields
    copied from the configuration.  With a truthy [uses], a truthy [run] or
    both, nothing is reported; with neither, exactly one diagnostic naming
    the job and the step's index is pushed. *)
Theorem parseStep_reports_missing_action (stepConfig : JsVal) (jobId : string)
    (stepIndex : nat) (errs : list ParseError) :
  nullish stepConfig = false ->
  parseStep stepConfig jobId stepIndex errs
  = (Normal (step_node stepConfig),
     if truthy (prop stepConfig "uses") || truthy (prop stepConfig "run")
     then errs
     else errs ++ [ {| message := ("Job '" ++ jobId ++ "', step "
                                   ++ index_string stepIndex
                                   ++ ": must have either 'uses' or 'run'")%string;
                       severity := error |} ]).
Proof.
  intro Hn. rewrite (parseStep_total stepConfig jobId stepIndex errs Hn).
  unfold step_check. cbn [fst snd].
  destruct (truthy (prop stepConfig "uses") || truthy (prop stepConfig "run"));
    [ rewrite app_nil_r | ]; reflexivity.
Qed.

Lemma parseStep_reports_missing_action_witness :
  parseStep (VObj [ ("uses", VStr "actions/checkout@v3"); ("run", VStr "npm test") ])
    "build" 2 []
  = (Normal (step_node (VObj [ ("uses", VStr "actions/checkout@v3");
                               ("run", VStr "npm test") ])), [])
  /\ snd (parseStep (VObj [ ("name", VStr "Invalid step") ]) "build" 2 [])
     = [ {| message := "Job 'build', step 2: must have either 'uses' or 'run'";
            severity := error |} ].
Proof.
  split.
  - apply (parseStep_reports_missing_action
             (VObj [ ("uses", VStr "actions/checkout@v3"); ("run", VStr "npm test") ])
             "build" 2 []).
    reflexivity.
  - rewrite (parseStep_reports_missing_action
               (VObj [ ("name", VStr "Invalid step") ]) "build" 2 [] eq_refl).
    reflexivity.
Defined.

(** X13: whenever [parseJob] completes, its configuration is not [null]
    and its [steps] sequence holds no [null]; the job it returns carries
    the given identifier, one step per element of the sequence in the same
    order (none when [steps] is not a sequence), and the other fields
    copied under their translated names; and it has pushed the finding
    about [runs-on] first, then the findings about the steps in index
    order. *)
Theorem parseJob_exact (jobId : string) (jobConfig : JsVal) (job : JobAST)
    (errs errs' : list ParseError) :
  parseJob jobId jobConfig errs = (Normal job, errs') ->
  nullish jobConfig = false
  /\ steps_total jobConfig = true
  /\ job = job_node jobId jobConfig
  /\ errs' = errs ++ job_check (jobId, jobConfig).
Proof.
  intro Hjob.
  destruct (negb (nullish jobConfig) && steps_total jobConfig) eqn:Hok.
  - apply andb_prop in Hok. destruct Hok as [Hn Hsteps].
    apply negb_true_iff in Hn.
    rewrite (parseJob_total jobId jobConfig errs Hn Hsteps) in Hjob.
    injection Hjob as <- <-. auto.
  - destruct (parseJob_throws jobId jobConfig errs Hok) as [e [errs0 Hthrow]].
    rewrite Hthrow in Hjob. discriminate Hjob.
Qed.

Lemma parseJob_exact_witness :
  job_node "deploy" (VObj [ ("needs", VStr "build"); ("steps", VStr "oops") ])
  = {| job_type := "job";
       job_id := "deploy";
       job_name := VUndefined;
       runsOn := VUndefined;
       steps := [];
       needs := Some [VStr "build"];
       job_if := VUndefined;
       strategy := None;
       job_env := VUndefined;
       permissions := VUndefined;
       timeout := VUndefined |}
  /\ [missing_runs_on "deploy"; steps_not_array "deploy"]
     = [] ++ job_check ("deploy", VObj [ ("needs", VStr "build"); ("steps", VStr "oops") ]).
Proof.
  destruct (parseJob_exact "deploy"
              (VObj [ ("needs", VStr "build"); ("steps", VStr "oops") ])
              (job_node "deploy" (VObj [ ("needs", VStr "build"); ("steps", VStr "oops") ]))
              [] [missing_runs_on "deploy"; steps_not_array "deploy"] eq_refl)
    as [_ [_ [_ Herrs]]].
  split; [ reflexivity | exact Herrs ].
Defined.

(** X14: [parseTrigger] throws on [null] and on nothing else. *)
Theorem parseTrigger_throws_iff_null (onConfig : JsVal) (errs : list ParseError) :
  (exists e errs', parseTrigger onConfig errs = (Throw e, errs'))
  <-> onConfig = VNull.
Proof.
  split.
  - intros [e [errs' Hthrow]].
    destruct onConfig as [ | | b | x | s | elems | props | t | bytes | f ];
      try reflexivity; rewrite parseTrigger_total in Hthrow by discriminate;
      discriminate Hthrow.
  - intros ->. eexists. eexists. reflexivity.
Qed.

(** ** Documents the strict entry point accepts *)

Lemma clean_steps_spec (jobId : string) (elems : list JsVal) :
  forall i,
    forallb clean_step elems = true
    <-> forallb (fun s => negb (nullish s)) elems = true
        /\ flat_map (step_check jobId) (combine (seq i (List.length elems)) elems) = [].
Proof.
  induction elems as [ | s rest IH ]; intro i;
    cbn [forallb List.length seq combine flat_map].
  - split; auto.
  - unfold clean_step at 1, step_check at 1. cbn [fst snd].
    specialize (IH (S i)).
    destruct (nullish s), (truthy (prop s "uses") || truthy (prop s "run"));
      cbn [negb andb app].
    + split; [ discriminate | intros [H _]; discriminate H ].
    + split; [ discriminate | intros [H _]; discriminate H ].
    + exact IH.
    + split; [ discriminate | intros [_ H]; discriminate H ].
Qed.

Lemma clean_job_spec (jobId : string) (jobConfig : JsVal) :
  clean_job jobConfig = true
  <-> negb (nullish jobConfig) && steps_total jobConfig = true
      /\ job_check (jobId, jobConfig) = [].
Proof.
  unfold clean_job, steps_total, job_check, steps_check. cbn [fst snd].
  destruct (nullish jobConfig); cbn [negb andb].
  - split; [ discriminate | intros [H _]; discriminate H ].
  - destruct (truthy (prop jobConfig "runs-on")); cbn [andb app];
      [ | split; [ discriminate | intros [_ H]; discriminate H ] ].
    destruct (prop jobConfig "steps") as [ | | b | x | s | elems | props | t | bytes | f ] eqn:Es;
      [ | | | | | unfold with_index; apply clean_steps_spec | | | | ];
      destruct (truthy _); cbn [negb];
      (split; [ auto; discriminate | intros [_ H]; try reflexivity; discriminate H ]).
Qed.

Lemma clean_jobs_spec (entries : list (string * JsVal)) :
  forallb (fun entry => clean_job (snd entry)) entries = true
  <-> forallb (fun entry => negb (nullish (snd entry)) && steps_total (snd entry))
        entries = true
      /\ flat_map job_check entries = [].
Proof.
  induction entries as [ | [jobId jobConfig] rest IH ]; cbn [forallb flat_map snd].
  - split; auto.
  - rewrite !andb_true_iff, (clean_job_spec jobId jobConfig), IH.
    split.
    + intros [[Hok Hnone] [Hoks Hnones]]. rewrite Hnone, Hnones.
      apply andb_prop in Hok. cbn [app]. intuition.
    + intros [[Hok Hoks] Hnone]. apply app_eq_nil in Hnone.
      rewrite (proj1 Hok), (proj2 Hok). tauto.
Qed.

Lemma clean_workflow_spec (raw : JsVal) :
  clean_workflow raw = true
  <-> is_object raw = true /\ null_free raw = true /\ detected raw = [].
Proof.
  unfold clean_workflow, null_free, detected, on_check, jobs_check.
  rewrite !andb_true_iff, clean_jobs_spec.
  destruct (is_object raw); [ | split; intros H; exfalso; intuition discriminate ].
  destruct (is_object (prop raw "jobs")) eqn:Hjobs.
  - destruct (truthy (prop raw "on")) eqn:Htruthy; cbn [app].
    + destruct (prop raw "on") as [ | | b | x | s | elems | props | t | bytes | f ];
        try discriminate Htruthy; intuition.
    + split; intro H; exfalso; intuition discriminate.
  - split; intro H; exfalso; [ intuition discriminate | ].
    destruct H as [_ [_ H]]. destruct (truthy (prop raw "on")); discriminate H.
Qed.

(** X15: for a decoded document, the strict entry point returns a workflow
    exactly when the document is not falsy and an object to [typeof] (a
    mapping, a sequence, a date or a typed array), its [on] is truthy, its
    [jobs] value is such an object too, and every entry visited under
    [jobs] is not [null] and has a truthy [runs-on] and a [steps] value
    that is falsy or a sequence of steps, none [null], with a truthy
    [uses] or [run] each; in every other case it throws. *)
Theorem parseWorkflow_accepts_iff_clean (h : Host) (yamlContent : string)
    (filePath : option string) (raw : JsVal) :
  yaml_load h yamlContent = Normal raw ->
  (exists tree, parseWorkflow h yamlContent filePath = Normal tree)
  <-> clean_workflow raw = true.
Proof.
  intro Hload. rewrite clean_workflow_spec. split.
  - intros [tree Hstrict]. apply parseWorkflow_normal in Hstrict.
    destruct (parse_workflow_inv h yamlContent filePath raw tree [] Hload Hstrict)
      as [Hobj Hfree].
    rewrite (parse_total h yamlContent filePath raw Hload Hobj Hfree) in Hstrict.
    injection Hstrict as _ Hnone. auto.
  - intros [Hobj [Hfree Hnone]].
    exists (workflow_node raw filePath (trigger_node (prop raw "on"))).
    apply parseWorkflow_normal.
    rewrite (parse_total h yamlContent filePath raw Hload Hobj Hfree).
    rewrite Hnone. reflexivity.
Qed.

Lemma parseWorkflow_accepts_iff_clean_witness :
  (exists tree, parseWorkflow node minimal_yaml None = Normal tree)
  /\ ~ (exists tree, parseWorkflow node (lines ["on: push"; "jobs:"; "  - steps: []"])
                       None = Normal tree).
Proof.
  split.
  - apply (parseWorkflow_accepts_iff_clean node minimal_yaml None minimal_tree eq_refl).
    reflexivity.
  - intro Hsome.
    apply (parseWorkflow_accepts_iff_clean node
             (lines ["on: push"; "jobs:"; "  - steps: []"]) None
             (VObj [("on", VStr "push"); ("jobs", VArr [VObj [("steps", VArr [])]])])
             eq_refl) in Hsome.
    discriminate Hsome.
Defined.

(** ** Filters of a single event *)

(** X16: for a mapping-shaped [on] with one event whose configuration is a
    mapping, each of [branches], [tags] and [paths] is undefined when the
    configuration's value is falsy, the sequence itself when the value is a
    sequence, and the one-element list of the value otherwise. *)
Theorem single_event_filters (e : string) (cfg : list (string * JsVal))
    (errs : list ParseError) :
  let coerce v := if truthy v
                  then Some (match v with VArr elems => elems | _ => [v] end)
                  else None in
  parseTrigger (VObj [(e, VObj cfg)]) errs
  = (Normal {| trigger_type := "trigger";
               events := [VStr e];
               branches := coerce (lookup "branches" cfg);
               tags := coerce (lookup "tags" cfg);
               paths := coerce (lookup "paths" cfg) |}, errs).
Proof.
  cbv zeta. rewrite parseTrigger_total by discriminate.
  unfold trigger_node, collect_filters. cbn [map fst fold_left lookup].
  rewrite String.eqb_refl.
  unfold event_filters, filter_of, as_list. cbn [no_filters f_branches f_tags f_paths].
  destruct (truthy (lookup "branches" cfg)), (truthy (lookup "tags" cfg)),
    (truthy (lookup "paths" cfg)); reflexivity.
Qed.

(** ** Dates and typed arrays *)

(** A timestamp or binary scalar at the top level is decoded to an object,
    passes the test of [parse] and comes back as a workflow without
    events or jobs, beside the two findings about [on] and [jobs]. *)
Lemma parse_builds_decoded_objects (h : Host) (yamlContent : string)
    (filePath : option string) (raw : JsVal) :
  yaml_load h yamlContent = Normal raw ->
  match raw with VDate _ | VBinary _ => True | _ => False end ->
  exists tree,
    parse h yamlContent filePath
    = Normal {| ast := Some tree; errors := [missing_on; invalid_jobs] |}
    /\ events (on tree) = []
    /\ jobs tree = [].
Proof.
  intros Hload Hshape.
  destruct raw as [ | | b | x | s | elems | props | t | bytes | f ];
    try contradiction.
  - rewrite (parse_total h yamlContent filePath (VDate t) Hload eq_refl eq_refl).
    eexists. split; [ reflexivity | split; reflexivity ].
  - assert (Hjobs : prop (VBinary bytes) "jobs" = VUndefined)
      by (cbn [prop]; apply lookup_indexed_name; reflexivity).
    assert (Hon : prop (VBinary bytes) "on" = VUndefined)
      by (cbn [prop]; apply lookup_indexed_name; reflexivity).
    assert (Hentries : job_entries (VBinary bytes) = [])
      by (unfold job_entries; rewrite Hjobs; reflexivity).
    assert (Hfree : null_free (VBinary bytes) = true)
      by (unfold null_free; rewrite Hon, Hentries; reflexivity).
    rewrite (parse_total h yamlContent filePath (VBinary bytes) Hload eq_refl Hfree).
    eexists. split; [ | split ].
    + unfold detected, on_check, jobs_check. rewrite Hon, Hjobs, Hentries.
      reflexivity.
    + cbn [on workflow_node]. reflexivity.
    + cbn [jobs workflow_node]. rewrite Hentries. reflexivity.
Qed.
